(** * alphacsc: the alternating-minimisation driver [learn_d_z_multi]

    A shallow embedding of [alphacsc/learn_d_z_multi.py] and the properties
    of its objective evaluator and of its outer loop.

    Conventions of the embedding.
    - Python floats are exact rationals ([Q]); equality of computed values
      is [Qeq].  Rounding, NaN and infinities are outside the model.
    - A numpy array is an array of floats (dtype [float64]), the dtype of
      every array the driver builds ([np.zeros], [randn], the results of
      the stages): its shape and its entries in row-major order.  The
      arithmetic of arrays broadcasts as numpy does.  Arrays of integers
      or booleans, whose arithmetic wraps around and which numpy does not
      update in place by a float factor, are not values of [ndarray].
    - A raised exception is a value of [res]; a function that touches the
      outside world (a stage call, the clock, the warnings module, an array
      held by reference) lives in the state-and-exception monad [SE].
    - The [print] statements guarded by [verbose] and the [profile_this]
      decorator are not modelled: they take no part in the data flow of
      the driver.  Of joblib's worker pool, the model keeps that it
      refuses [n_jobs = 0]. *)

From Stdlib Require Import ZArith QArith Qabs Qminmax List String Lia.
From stdpp Require Import base option list gmap strings.


(** ** Exceptions and results *)

Inductive exn : Type :=
| ValueError (msg : string)
| IndexError (msg : string)
| TypeError (msg : string)
| StageFailure (msg : string).

Inductive res (A : Type) : Type :=
| Ok (a : A)
| Raise (e : exn).
Arguments Ok {A} a.
Arguments Raise {A} e.

Definition res_bind {A B} (r : res A) (k : A -> res B) : res B :=
  match r with
  | Ok a => k a
  | Raise e => Raise e
  end.

#[global] Instance res_ret : MRet res := fun A a => Ok a.
#[global] Instance res_mbind : MBind res := fun A B k r => res_bind r k.

Definition is_Ok {A} (r : res A) : bool :=
  match r with Ok _ => true | Raise _ => false end.

(** ** State and exceptions: [SE S A] *)

Definition SE (S A : Type) : Type := S -> S * res A.

Definition se_ret {S A} (a : A) : SE S A := fun s => (s, Ok a).

Definition se_bind {S A B} (m : SE S A) (k : A -> SE S B) : SE S B :=
  fun s =>
    match m s with
    | (s', Ok a) => k a s'
    | (s', Raise e) => (s', Raise e)
    end.

Definition se_lift {S A} (r : res A) : SE S A := fun s => (s, r).

Definition se_modify {S} (f : S -> S) : SE S unit := fun s => (f s, Ok tt).

Declare Scope se_scope.
Delimit Scope se_scope with se.
Notation "x <- m ;; k" := (se_bind m (fun x => k))
  (at level 100, m at next level, right associativity) : se_scope.
Notation "m ;;; k" := (se_bind m (fun _ => k))
  (at level 100, right associativity) : se_scope.

Local Open Scope string_scope.
Local Open Scope list_scope.
Local Open Scope Q_scope.

(** ** numpy arrays

    An array of floats: [shape] is the tuple [A.shape]; [data] lists the
    entries in row-major (C) order.  [wf_array] is the invariant every
    numpy array satisfies. *)

Record ndarray : Type := NdArray { shape : list nat; data : list Q }.

Definition size_of (s : list nat) : nat := fold_right Nat.mul 1%nat s.

Definition wf_array (A : ndarray) : Prop :=
  length (data A) = size_of (shape A).

Definition all_zero (A : ndarray) : Prop := Forall (fun x => x == 0) (data A).

(** [np.zeros(dims)]: a negative dimension is a [ValueError]. *)
Definition np_zeros (dims : list Z) : res ndarray :=
  if forallb (Z.leb 0) dims
  then Ok {| shape := map Z.to_nat dims;
             data := repeat 0 (size_of (map Z.to_nat dims)) |}
  else Raise (ValueError "negative dimensions are not allowed").

(** Broadcasting.  Shapes are aligned on their last axis, so the helper
    functions work on reversed shapes and reversed multi-indices. *)
Fixpoint broadcast_rev (s1 s2 : list nat) : option (list nat) :=
  match s1, s2 with
  | [], _ => Some s2
  | _, [] => Some s1
  | a :: s1', b :: s2' =>
      match broadcast_rev s1' s2' with
      | None => None
      | Some r =>
          if (a =? b)%nat then Some (a :: r)
          else if (a =? 1)%nat then Some (b :: r)
          else if (b =? 1)%nat then Some (a :: r)
          else None
      end
  end.

(** The multi-index (last axis first) of flat position [i]. *)
Fixpoint unravel_rev (s : list nat) (i : nat) : list nat :=
  match s with
  | [] => []
  | d :: s' => (i mod d)%nat :: unravel_rev s' (i / d)%nat
  end.

(** The flat position, in an operand of reversed shape [s], of the entry
    that takes part in the result entry [ix]: an axis of extent 1 is read
    at 0 and the leading axes the operand lacks are ignored. *)
Fixpoint ravel_rev (s ix : list nat) : nat :=
  match s, ix with
  | d :: s', j :: ix' =>
      ((if (d =? 1)%nat then 0 else j) + d * ravel_rev s' ix')%nat
  | _, _ => 0%nat
  end.

Definition get_rev (A : ndarray) (ix : list nat) : Q :=
  nth (ravel_rev (rev (shape A)) ix) (data A) 0.

Definition broadcast_op (f : Q -> Q -> Q) (A B : ndarray) : res ndarray :=
  match broadcast_rev (rev (shape A)) (rev (shape B)) with
  | None => Raise (ValueError "operands could not be broadcast together")
  | Some r =>
      Ok {| shape := rev r;
            data := map (fun i => let ix := unravel_rev r i in
                                  f (get_rev A ix) (get_rev B ix))
                        (seq 0 (size_of r)) |}
  end.

(** [A - B] and [A * B], on arrays of floats. *)
Definition np_sub : ndarray -> ndarray -> res ndarray := broadcast_op Qminus.
Definition np_mul : ndarray -> ndarray -> res ndarray := broadcast_op Qmult.

(** [A *= B], on arrays of floats: the product must have the shape of
    [A]. *)
Definition np_imul (A B : ndarray) : res ndarray :=
  R ← np_mul A B;
  if decide (shape R = shape A) then Ok R
  else Raise (ValueError "non-broadcastable output operand").

(** [A[:, None, None]]. *)
Definition expand_axes (A : ndarray) : res ndarray :=
  match shape A with
  | [] => Raise (IndexError "too many indices for array")
  | d :: s => Ok {| shape := d :: 1%nat :: 1%nat :: s; data := data A |}
  end.

Definition qsum (l : list Q) : Q := fold_right Qplus 0 l.

(** [np.sum(A)] and [A.sum()]. *)
Definition np_sum (A : ndarray) : Q := qsum (data A).

(** [len(A.nonzero()[0])]. *)
Definition count_nonzero (A : ndarray) : nat :=
  length (filter (fun x => negb (Qeq_bool x 0)) (data A)).

(** ** The objective *)

(** [objective(X, X_hat, Z_hat, reg)], on arrays of floats. *)
Definition objective (X X_hat Z_hat : ndarray) (reg : Q) : res Q :=
  residual ← np_sub X X_hat;
  sq ← np_mul residual residual;
  mret ((1 # 2) * np_sum sq + reg * np_sum Z_hat).

(** Values of keyword dictionaries ([solver_d_kwargs], [solver_z_kwargs]). *)
Inductive pyval : Type :=
| PyInt (n : Z)
| PyFloat (x : Q)
| PyStr (s : string).

Abbreviation kwargs := (gmap string pyval).

(** The functions of the other modules of the package, and of the
    standard library, that the driver and the evaluator call.
    - [prox_uv] is taken with [return_norm=True]: it yields the projected
      atoms and the per-atom factor;
    - [randn] threads the state of the generator;
    - [update_z_multi X uv_hat reg z0 solver solver_kwargs];
    - [time_time k] is the value of the [k]-th reading of [time.time()]. *)
Class Stages : Type := {
  prox_uv : ndarray -> string -> nat -> res (ndarray * ndarray);
  _get_D : ndarray -> nat -> res ndarray;
  construct_X_multi : ndarray -> ndarray -> res ndarray;
  update_z_multi :
    ndarray -> ndarray -> Q -> ndarray -> string -> kwargs -> res ndarray;
  _support_least_square : ndarray -> ndarray -> ndarray -> res ndarray;
  RandomState : Type;
  check_random_state : option Z -> RandomState;
  randn : RandomState -> list Z -> res (ndarray * RandomState);
  time_time : nat -> Q;
}.

Section Evaluator.
Context `{Stages}.

(** [compute_X_and_objective_multi(X, Z_hat, uv_hat, reg,
      feasible_evaluation, uv_constraint)], on array values. *)
Definition compute_X_and_objective_multi (X Z_hat uv_hat : ndarray) (reg : Q)
    (feasible_evaluation : bool) (uv_constraint : string) : res Q :=
  n_chan ← match shape X !! 1%nat with
           | Some n => Ok n
           | None => Raise (IndexError "tuple index out of range")
           end;
  '(Z_hat, uv_hat) ←
    (if feasible_evaluation then
       '(uv_hat, norm_uv) ← prox_uv uv_hat uv_constraint n_chan;
       factor ← expand_axes norm_uv;
       Z_hat ← np_imul Z_hat factor;
       mret (Z_hat, uv_hat)
     else mret (Z_hat, uv_hat));
  d_hat ← _get_D uv_hat n_chan;
  X_hat ← construct_X_multi Z_hat d_hat;
  objective X X_hat Z_hat reg.

End Evaluator.

(** ** The evaluator on arrays held by reference

    Python passes arrays by reference and [prox_uv] normalises the array it
    is given in place.  Here the arrays live in a store, [A.copy()]
    allocates, and [Z_hat *= ...] overwrites the array [Z_hat] is bound
    to.  The arrays built by [_get_D], [construct_X_multi] and [objective]
    are temporaries and stay values. *)

Abbreviation store := (gmap nat ndarray).

Definition load (l : nat) : SE store ndarray :=
  fun σ => match σ !! l with
           | Some a => (σ, Ok a)
           | None => (σ, Raise (StageFailure "dangling reference"))
           end.

Definition alloc (a : ndarray) : SE store nat :=
  fun σ => let l := fresh (dom σ) in (<[l := a]> σ, Ok l).

Definition overwrite (l : nat) (a : ndarray) : SE store unit :=
  fun σ => (<[l := a]> σ, Ok tt).

(** [A.copy()] *)
Definition np_copy (l : nat) : SE store nat :=
  (a <- load l ;; alloc a)%se.

Section EvaluatorByReference.
Context `{Stages}.

(** [prox_uv] as the evaluator calls it: on a reference, returning
    references to the projected atoms and to the per-atom factor. *)
Variable prox_uv_inplace : nat -> string -> nat -> SE store (nat * nat).

Definition compute_X_and_objective_multi_ref (X Z_hat uv_hat : nat) (reg : Q)
    (feasible_evaluation : bool) (uv_constraint : string) : SE store Q :=
  (x <- load X ;;
   n_chan <- se_lift (match shape x !! 1%nat with
                      | Some n => Ok n
                      | None => Raise (IndexError "tuple index out of range")
                      end) ;;
   p <- (if feasible_evaluation then
           Z_hat <- np_copy Z_hat ;;
           uv_hat <- np_copy uv_hat ;;
           r <- prox_uv_inplace uv_hat uv_constraint n_chan ;;
           let '(uv_hat, norm_uv) := r in
           nrm <- load norm_uv ;;
           factor <- se_lift (expand_axes nrm) ;;
           z <- load Z_hat ;;
           z' <- se_lift (np_imul z factor) ;;
           overwrite Z_hat z' ;;;
           se_ret (Z_hat, uv_hat)
         else se_ret (Z_hat, uv_hat)) ;;
   let '(Z_hat, uv_hat) := p in
   uv <- load uv_hat ;;
   d_hat <- se_lift (_get_D uv n_chan) ;;
   z <- load Z_hat ;;
   X_hat <- se_lift (construct_X_multi z d_hat) ;;
   se_lift (objective x X_hat z reg))%se.

End EvaluatorByReference.

(** ** The driver *)

Definition Qlt_bool (x y : Q) : bool :=
  match x ?= y with Lt => true | _ => false end.

(** [l[-k]] for [k >= 1] on a Python list. *)
Definition from_end {A} (l : list A) (k : nat) : res A :=
  match rev l !! (k - 1)%nat with
  | Some a => Ok a
  | None => Raise (IndexError "list index out of range")
  end.

(** [Parallel(n_jobs=n_jobs)] entered by [with]: joblib refuses a pool of
    zero workers with a [ValueError]; a negative [n_jobs] counts back from
    the number of processors.  The pool itself is only handed on to the
    sparse-code stage. *)
Definition Parallel (n_jobs : Z) : res unit :=
  if (n_jobs =? 0)%Z
  then Raise (ValueError "n_jobs == 0 in Parallel has no meaning")
  else Ok tt.

(** The arguments of [learn_d_z_multi]. *)
Record config : Type := {
  X : ndarray;
  n_atoms : Z;
  n_times_atom : Z;
  func_d : ndarray -> ndarray -> ndarray -> ndarray -> string -> string ->
           kwargs -> res ndarray;
  reg : Q;
  n_iter : Z;
  random_state : option Z;
  n_jobs : Z;
  solver_z : string;
  solver_d : string;
  uv_constraint : string;
  solver_d_kwargs : kwargs;
  solver_z_kwargs : kwargs;
  eps : Q;
  uv_init : option ndarray;
  verbose : Z;
  callback : option (ndarray -> ndarray -> ndarray -> Q -> res unit);
  stopping_pobj : option Q;
}.

(** What the driver does to the outside world, in order. *)
Inductive event : Type :=
| Call_prox_uv (uv_constraint : string)
| Call_objective (reg : Q) (feasible_evaluation : bool)
| Call_update_z_multi (ii : nat) (reg_ : Q) (solver : string)
| Call_func_d (ii : nat) (solver_d : string)
| Call_callback (ii : nat)
| Warn (category msg : string)
| Call_support_least_square.

Record world : Type := { events : list event; clock : nat }.

Definition emit (ev : event) : SE world unit :=
  se_modify (fun w => {| events := events w ++ [ev]; clock := clock w |}).

(** A call to another module: the call is recorded, then it returns or
    raises. *)
Definition call {A} (ev : event) (r : res A) : SE world A :=
  (emit ev ;;; se_lift r)%se.

(** The variables of the loop. *)
Record locals : Type := {
  uv_hat : ndarray;
  Z_hat : ndarray;
  pobj : list Q;
  times : list Q;
  reg_ : Q;
}.

(** How an iteration ends: it falls through to the next one, or leaves
    the loop at one of the three [break] statements. *)
Inductive signal : Type :=
| Continue
| Break_all_zero
| Break_eps
| Break_stopping_pobj.

Definition all_zero_warning : string :=
  "Regularization parameter `reg` is too large and all the activations are zero. No atoms has been learned.".

Section Driver.
Context `{Stages}.

(** [time.time()] *)
Definition now : SE world Q :=
  fun w => ({| events := events w; clock := S (clock w) |},
            Ok (time_time (clock w))).

(** [func_d(X, Z_hat, uv_hat0=uv_hat, b_hat_0=b_hat_0, solver_d=solver_d,
      uv_constraint=uv_constraint, **d_kwargs)] with
    [d_kwargs = dict(verbose=verbose, eps=1e-8)] updated by
    [solver_d_kwargs]; a key of [d_kwargs] that repeats a keyword of the
    call is a [TypeError]. *)
Definition call_func_d (c : config) (Z_hat uv_hat b_hat_0 : ndarray)
    : res ndarray :=
  let d_kwargs : kwargs :=
    solver_d_kwargs c
      ∪ <["verbose" := PyInt (verbose c)]>
          (<["eps" := PyFloat (1 # 100000000)]> ∅) in
  if existsb (fun k => bool_decide (is_Some (d_kwargs !! k)))
             ["uv_hat0"; "b_hat_0"; "solver_d"; "uv_constraint"]
  then Raise (TypeError "got multiple values for keyword argument")
  else func_d c (X c) Z_hat uv_hat b_hat_0 (solver_d c) (uv_constraint c)
              d_kwargs.

(** The objective as the driver asks for it: regularisation [reg],
    [feasible_evaluation] left to its default, [True]. *)
Definition monitor (c : config) (Z_hat uv_hat : ndarray) : SE world Q :=
  call (Call_objective (reg c) true)
       (compute_X_and_objective_multi (X c) Z_hat uv_hat (reg c) true
          (uv_constraint c)).

(** The body of the loop, for the iteration [ii].  A primed name is the
    new value of the variable of that name. *)
Definition body (c : config) (b_hat_0 : ndarray) (ii : nat) (l : locals)
    : SE world (signal * locals) :=
  (let reg_' := if (ii =? 1)%nat then reg c else reg_ l in
   start <- now ;;
   Z_hat' <- call (Call_update_z_multi ii reg_' (solver_z c))
                  (update_z_multi (X c) (uv_hat l) reg_' (Z_hat l)
                     (solver_z c) (solver_z_kwargs c)) ;;
   stop <- now ;;
   let times' := times l ++ [stop - start] in
   if (count_nonzero Z_hat' =? 0)%nat then
     emit (Warn "UserWarning" all_zero_warning) ;;;
     se_ret (Break_all_zero,
             {| uv_hat := uv_hat l; Z_hat := Z_hat'; pobj := pobj l;
                times := times'; reg_ := reg_' |})
   else
     v <- monitor c Z_hat' (uv_hat l) ;;
     let pobj' := pobj l ++ [v] in
     start <- now ;;
     uv_hat' <- call (Call_func_d ii (solver_d c))
                     (call_func_d c Z_hat' (uv_hat l) b_hat_0) ;;
     stop <- now ;;
     let times' := times' ++ [stop - start] in
     v <- monitor c Z_hat' uv_hat' ;;
     let pobj' := pobj' ++ [v] in
     match callback c with
     | Some f => call (Call_callback ii) (f (X c) uv_hat' Z_hat' (reg c))
     | None => se_ret tt
     end ;;;
     let l' := {| uv_hat := uv_hat'; Z_hat := Z_hat'; pobj := pobj';
                  times := times'; reg_ := reg_' |} in
     before <- se_lift (from_end pobj' 2) ;;
     last <- se_lift (from_end pobj' 1) ;;
     if Qlt_bool (before - last) (eps c) then se_ret (Break_eps, l')
     else
       match stopping_pobj c with
       | Some floor =>
           last <- se_lift (from_end pobj' 1) ;;
           if Qlt_bool last floor then se_ret (Break_stopping_pobj, l')
           else se_ret (Continue, l')
       | None => se_ret (Continue, l')
       end)%se.

(** [for ii in range(n_iter): ...], from the iterations [iis] left. *)
Fixpoint loop (c : config) (b_hat_0 : ndarray) (iis : list nat) (l : locals)
    : SE world (signal * locals) :=
  match iis with
  | [] => se_ret (Continue, l)
  | ii :: iis' =>
      (r <- body c b_hat_0 ii l ;;
       match fst r with
       | Continue => loop c b_hat_0 iis' (snd r)
       | _ => se_ret r
       end)%se
  end.

(** The statements before the loop: the shapes, the initial atoms and
    their projection, [b_hat_0], the zero activations and the first
    entries of the two traces. *)
Definition initialise (c : config) : SE world (ndarray * locals) :=
  (dims <- se_lift (match shape (X c) with
                    | [a; b; d] => Ok (a, b, d)
                    | _ => Raise (ValueError "cannot unpack X.shape")
                    end) ;;
   let '(n_trials, n_chan, n_times) := dims in
   let n_times_valid := (Z.of_nat n_times - n_times_atom c + 1)%Z in
   let rng := check_random_state (random_state c) in
   drawn <- match uv_init c with
            | None => se_lift (randn rng [n_atoms c;
                                          Z.of_nat n_chan + n_times_atom c]%Z)
            | Some uv => se_ret (uv, rng)
            end ;;
   let '(uv_hat0, rng) := drawn in
   projected <- call (Call_prox_uv (uv_constraint c))
                     (prox_uv uv_hat0 (uv_constraint c) n_chan) ;;
   let uv_hat0 := fst projected in
   drawn <- se_lift (randn rng [n_atoms c *
                                (Z.of_nat n_chan + n_times_atom c)]%Z) ;;
   let b_hat_0 := fst drawn in
   let pobj0 : list Q := [] in
   let times0 : list Q := [] in
   Z_hat0 <- se_lift (np_zeros [n_atoms c; Z.of_nat n_trials; n_times_valid]) ;;
   v <- monitor c Z_hat0 uv_hat0 ;;
   let pobj0 := pobj0 ++ [v] in
   let times0 := times0 ++ [0] in
   se_ret (b_hat_0,
           {| uv_hat := uv_hat0; Z_hat := Z_hat0; pobj := pobj0;
              times := times0; reg_ := reg c / 100 |}))%se.

(** The statements after the loop. *)
Definition finish (c : config) (l : locals)
    : SE world (list Q * list Q * ndarray * ndarray) :=
  (Z_hat' <- call Call_support_least_square
                  (_support_least_square (X c) (uv_hat l) (Z_hat l)) ;;
   se_ret (pobj l, times l, uv_hat l, Z_hat'))%se.

(** [learn_d_z_multi(X, n_atoms, n_times_atom, ...)]: the loop runs
    inside [with Parallel(n_jobs=n_jobs) as parallel]. *)
Definition learn_d_z_multi (c : config)
    : SE world (list Q * list Q * ndarray * ndarray) :=
  (init <- initialise c ;;
   se_lift (Parallel (n_jobs c)) ;;;
   r <- loop c (fst init) (seq 0 (Z.to_nat (n_iter c))) (snd init) ;;
   finish c (snd r))%se.

End Driver.

(** ** The collaborators of the driver

    [prox_uv], [_get_D], [construct_X_multi], [update_z_multi] and
    [_support_least_square] belong to other modules of the package.  The
    theorems below hold for every instance of [Stages]; the instance built
    here is the one they are run on. *)

(** A square root on rationals: exact on the squares of rationals, rounded
    down to a multiple of the inverse of the denominator otherwise. *)
Definition Qsqrt (q : Q) : Q :=
  Z.sqrt (Qnum q * Z.pos (Qden q)) # Qden q.

Definition norm2 (r : list Q) : Q := Qsqrt (qsum (map (fun x => x * x) r)).

Definition norm_inf (r : list Q) : Q := fold_right Qmax 0 (map Qabs r).

(** The [k] rows of length [m] of a matrix given in row-major order. *)
Definition rows (k m : nat) (d : list Q) : list (list Q) :=
  map (fun i => take m (drop (i * m) d)) (seq 0 k).

Definition known_constraint (c : string) : bool :=
  bool_decide (c = "joint") || bool_decide (c = "separate")
  || bool_decide (c = "box").

(** One atom [r = u ++ v] projected, and the factor it was divided by. *)
Definition project_atom (c : string) (n_chan : nat) (r : list Q)
    : list Q * Q :=
  if bool_decide (c = "separate") then
    let u := take n_chan r in
    let v := drop n_chan r in
    let norm_u := Qmax 1 (norm2 u) in
    let norm_v := Qmax 1 (norm2 v) in
    (map (fun x => x / norm_u) u ++ map (fun x => x / norm_v) v,
     norm_u * norm_v)
  else
    let norm_uv := Qmax 1 (if bool_decide (c = "joint") then norm2 r
                           else norm_inf r) in
    (map (fun x => x / norm_uv) r, norm_uv).

(** Modelled from the spec: [prox_uv] (module [update_d_multi]) is not in
    the sources.  Section 4.1: every atom is brought into the feasible set
    of the constraint mode, joint ([norm_2([u, v]) <= 1]), separate
    ([norm_2(u) <= 1] and [norm_2(v) <= 1]) or box ([norm_inf([u, v]) <= 1]),
    and the per-atom factor is reported; section 7: an unknown constraint
    mode is an error. *)
Definition prox_uv_model (uv : ndarray) (c : string) (n_chan : nat)
    : res (ndarray * ndarray) :=
  if known_constraint c then
    match shape uv with
    | [k; m] =>
        let atoms := map (project_atom c n_chan) (rows k m (data uv)) in
        Ok ({| shape := [k; m]; data := concat (map fst atoms) |},
            {| shape := [k]; data := map snd atoms |})
    | _ => Raise (ValueError "uv must have two dimensions")
    end
  else Raise (ValueError "Unknown uv_constraint").

(** Modelled from the spec: [_get_D] (module [utils]) is not in the
    sources.  Sections 1 and 3: an atom is the rank-1 product of its
    spatial pattern (the first [n_chan] entries) and its temporal
    pattern (the others). *)
Definition _get_D_model (uv : ndarray) (n_chan : nat) : res ndarray :=
  match shape uv with
  | [k; m] =>
      Ok {| shape := [k; Nat.min n_chan m; (m - n_chan)%nat];
            data := flat_map
                      (fun r => flat_map
                                  (fun a => map (fun b => a * b) (drop n_chan r))
                                  (take n_chan r))
                      (rows k m (data uv)) |}
  | _ => Raise (ValueError "uv must have two dimensions")
  end.

(** Entry [(i, j, t)] of an array of shape [[_; d1; d2]]. *)
Definition at3 (d1 d2 : nat) (d : list Q) (i j t : nat) : Q :=
  nth ((i * d1 + j) * d2 + t) d 0.

(** Modelled from the spec: [construct_X_multi] (module [utils]) is not in
    the sources.  Sections 1 and 4.2: the reconstruction of a trial is the
    sum over the atoms of the convolution of the activation of the atom
    on that trial with the atom. *)
Definition construct_X_multi_model (Z D : ndarray) : res ndarray :=
  match shape Z, shape D with
  | [_; n_trials; n_times_valid], [n_atoms; n_chan; n_times_atom] =>
      if (n_times_valid + n_times_atom =? 0)%nat
      then Raise (ValueError "negative dimensions are not allowed")
      else
        let n_times := (n_times_valid + n_times_atom - 1)%nat in
        Ok {| shape := [n_trials; n_chan; n_times];
              data :=
                flat_map (fun i =>
                  flat_map (fun ch =>
                    map (fun t =>
                      qsum (map (fun k =>
                        qsum (map (fun tau =>
                          if (tau <=? t)%nat && (t - tau <? n_times_valid)%nat
                          then at3 n_trials n_times_valid (data Z) k i (t - tau)
                               * at3 n_chan n_times_atom (data D) k ch tau
                          else 0)
                          (seq 0 n_times_atom)))
                        (seq 0 n_atoms)))
                      (seq 0 n_times))
                    (seq 0 n_chan))
                  (seq 0 n_trials) |}
  | _, _ => Raise (ValueError "cannot unpack the shapes")
  end.

Definition known_solver_z (s : string) : bool :=
  bool_decide (s = "l_bfgs") || bool_decide (s = "ista")
  || bool_decide (s = "fista").

Definition known_solver_d (s : string) : bool :=
  bool_decide (s = "alternate") || bool_decide (s = "joint")
  || bool_decide (s = "lbfgs").

(** Modelled from the spec: [update_z_multi] (module [update_z_multi]) is
    not in the sources.  Sections 2 and 6: it returns non-negative
    activations of shape (atoms, trials, valid length) for the current
    atoms, and the solver is one of a closed set of names.  This stand-in
    takes one thresholding step from zero: the correlation of the data
    with each atom, less [reg], cut at zero. *)
Definition update_z_multi_model (X uv_hat : ndarray) (reg : Q) (z0 : ndarray)
    (solver : string) (solver_kwargs : kwargs) : res ndarray :=
  if known_solver_z solver then
    match shape X with
    | [n_trials; n_chan; n_times] =>
        D ← _get_D_model uv_hat n_chan;
        match shape D with
        | [n_atoms; _; n_times_atom] =>
            let n_times_valid := (n_times + 1 - n_times_atom)%nat in
            Ok {| shape := [n_atoms; n_trials; n_times_valid];
                  data :=
                    flat_map (fun k =>
                      flat_map (fun i =>
                        map (fun t =>
                          Qmax 0
                            (qsum (map (fun ch =>
                               qsum (map (fun tau =>
                                 at3 n_chan n_times_atom (data D) k ch tau
                                 * at3 n_chan n_times (data X) i ch (t + tau))
                                 (seq 0 n_times_atom)))
                               (seq 0 n_chan))
                             - reg))
                          (seq 0 n_times_valid))
                        (seq 0 n_trials))
                      (seq 0 n_atoms) |}
        | _ => Raise (ValueError "cannot unpack the shapes")
        end
    | _ => Raise (ValueError "cannot unpack the shapes")
    end
  else Raise (ValueError "Unknown solver").

(** Modelled from the spec: [_support_least_square] (module
    [update_z_multi]) is not in the sources.  Section 4.3: the amplitudes
    are re-solved on the support of the activations.  This stand-in keeps
    the amplitudes, which is the refinement of activations whose support
    is empty. *)
Definition _support_least_square_model (X uv_hat Z_hat : ndarray)
    : res ndarray :=
  Ok Z_hat.

(** A generator: its state is a counter, [randn] draws from {-1, 0, 1}. *)
Definition randn_model (st : nat) (dims : list Z) : res (ndarray * nat) :=
  if forallb (Z.leb 0) dims then
    let n := size_of (map Z.to_nat dims) in
    Ok ({| shape := map Z.to_nat dims;
           data := map (fun i => inject_Z (Z.of_nat ((st + i) mod 3)) - 1)
                       (seq 0 n) |},
        (st + n)%nat)
  else Raise (ValueError "negative dimensions are not allowed").

#[global] Instance model_stages : Stages := {|
  prox_uv := prox_uv_model;
  _get_D := _get_D_model;
  construct_X_multi := construct_X_multi_model;
  update_z_multi := update_z_multi_model;
  _support_least_square := _support_least_square_model;
  RandomState := nat;
  check_random_state := fun s => match s with
                                 | Some n => Z.to_nat n
                                 | None => 0%nat
                                 end;
  randn := randn_model;
  time_time := fun k => inject_Z (Z.of_nat k);
|}.

(** A dictionary update to pass as [func_d]: it checks the solver name and
    the constraint mode and returns the atoms [uv_next]. *)
Definition func_d_const (uv_next : ndarray)
    (X Z_hat uv_hat0 b_hat_0 : ndarray) (solver_d uv_constraint : string)
    (d_kwargs : kwargs) : res ndarray :=
  if known_solver_d solver_d then
    if known_constraint uv_constraint then Ok uv_next
    else Raise (ValueError "Unknown uv_constraint")
  else Raise (ValueError "Unknown solver_d").

(** [prox_uv] on a reference: the array is normalised in place and
    returned; the factor is a new array. *)
Definition prox_uv_model_inplace (l : nat) (c : string) (n_chan : nat)
    : SE store (nat * nat) :=
  (uv <- load l ;;
   projected <- se_lift (prox_uv_model uv c n_chan) ;;
   overwrite l (fst projected) ;;;
   l_norm <- alloc (snd projected) ;;
   se_ret (l, l_norm))%se.

(** *** A small problem: one trial, one channel, two samples, one atom of
    temporal support 1. *)

Definition X_small : ndarray := {| shape := [1; 1; 2]%nat; data := [4; 0] |}.

Definition uv_half : ndarray := {| shape := [1; 2]%nat; data := [1; 1 # 2] |}.

Definition uv_unit : ndarray := {| shape := [1; 2]%nat; data := [1; 1] |}.

Definition small (n : Z) (r : Q) (floor : option Q) : config := {|
  X := X_small;
  n_atoms := 1;
  n_times_atom := 1;
  func_d := func_d_const uv_unit;
  reg := r;
  n_iter := n;
  random_state := None;
  n_jobs := 1;
  solver_z := "l_bfgs";
  solver_d := "alternate";
  uv_constraint := "separate";
  solver_d_kwargs := ∅;
  solver_z_kwargs := ∅;
  eps := 1 # 10000000000;
  uv_init := Some uv_half;
  verbose := 10;
  callback := None;
  stopping_pobj := floor;
|}.

Definition world0 : world := {| events := []; clock := 0 |}.

(** The variables of the loop when it is entered on the small problem with
    [reg = 1]. *)
Definition locals0 : locals := {|
  uv_hat := uv_half;
  Z_hat := {| shape := [1; 1; 2]%nat; data := [0; 0] |};
  pobj := [256 # 32];
  times := [0];
  reg_ := 1 / 100;
|}.

Definition b_hat_small : ndarray :=
  {| shape := [2]%nat; data := [-1; 0] |}.

(** The same with [reg = 1000]. *)
Definition locals0_large : locals := {|
  uv_hat := uv_half;
  Z_hat := {| shape := [1; 1; 2]%nat; data := [0; 0] |};
  pobj := [256 # 32];
  times := [0];
  reg_ := 1000 / 100;
|}.

(** The variables of the loop after the iteration 0 of the small problem
    with [reg = 1]. *)
Definition locals1 : locals := {|
  uv_hat := uv_unit;
  Z_hat := {| shape := [1; 1; 2]%nat; data := [398 # 200; 0] |};
  pobj := [256 # 32; 1665283200 # 256000000; 64160800 # 16000000];
  times := [0; 1; 1];
  reg_ := 1 # 100;
|}.

Definition world1 : world := {|
  events := [Call_update_z_multi 0 (1 # 100) "l_bfgs"; Call_objective 1 true;
             Call_func_d 0 "alternate"; Call_objective 1 true];
  clock := 4;
|}.

(** The small problem with a negative regularisation and the solver
    names [sz] and [sd]. *)
Definition small_unchecked (n : Z) (sz sd : string) : config := {|
  X := X_small;
  n_atoms := 1;
  n_times_atom := 1;
  func_d := func_d_const uv_unit;
  reg := -1;
  n_iter := n;
  random_state := None;
  n_jobs := 1;
  solver_z := sz;
  solver_d := sd;
  uv_constraint := "separate";
  solver_d_kwargs := ∅;
  solver_z_kwargs := ∅;
  eps := 1 # 10000000000;
  uv_init := Some uv_half;
  verbose := 10;
  callback := None;
  stopping_pobj := None;
|}.

(** The small problem with the constraint mode [cm]. *)
Definition small_mode (cm : string) : config := {|
  X := X_small;
  n_atoms := 1;
  n_times_atom := 1;
  func_d := func_d_const uv_unit;
  reg := 1;
  n_iter := 3;
  random_state := None;
  n_jobs := 1;
  solver_z := "l_bfgs";
  solver_d := "alternate";
  uv_constraint := cm;
  solver_d_kwargs := ∅;
  solver_z_kwargs := ∅;
  eps := 1 # 10000000000;
  uv_init := Some uv_half;
  verbose := 10;
  callback := None;
  stopping_pobj := None;
|}.

(** The small problem with a dictionary update that leaves the feasible
    set: the spatial pattern of the atom it returns has norm 2. *)
Definition uv_long : ndarray := {| shape := [1; 2]%nat; data := [2; 1] |}.

Definition small_long (n : Z) : config := {|
  X := X_small;
  n_atoms := 1;
  n_times_atom := 1;
  func_d := func_d_const uv_long;
  reg := 1;
  n_iter := n;
  random_state := None;
  n_jobs := 1;
  solver_z := "l_bfgs";
  solver_d := "alternate";
  uv_constraint := "separate";
  solver_d_kwargs := ∅;
  solver_z_kwargs := ∅;
  eps := 1 # 10000000000;
  uv_init := Some uv_half;
  verbose := 10;
  callback := None;
  stopping_pobj := None;
|}.

(** A problem with one sample per trial whose initial atoms are longer
    than [n_times_atom] announces: three temporal entries for a temporal
    support of 1. *)
Definition misshaped : config := {|
  X := {| shape := [1; 1; 1]%nat; data := [4] |};
  n_atoms := 1;
  n_times_atom := 1;
  func_d := func_d_const uv_unit;
  reg := 1;
  n_iter := 0;
  random_state := None;
  n_jobs := 1;
  solver_z := "l_bfgs";
  solver_d := "alternate";
  uv_constraint := "separate";
  solver_d_kwargs := ∅;
  solver_z_kwargs := ∅;
  eps := 1 # 10000000000;
  uv_init := Some {| shape := [1; 4]%nat; data := [1; 1; 0; 0] |};
  verbose := 10;
  callback := None;
  stopping_pobj := None;
|}.

(** ** What the evaluator expects of its collaborators

    The shapes documented for [prox_uv], [_get_D], [construct_X_multi] and
    [randn], and that the reconstruction of zero activations is zero. *)
Record contracts `{Stages} : Prop := {
  prox_uv_shape : forall uv cm n uv' nrm,
    prox_uv uv cm n = Ok (uv', nrm) -> shape uv' = shape uv;
  _get_D_shape : forall uv n k m D,
    _get_D uv n = Ok D -> shape uv = [k; m] -> (n <= m)%nat ->
    shape D = [k; n; (m - n)%nat];
  construct_X_multi_shape : forall Z D Xh k n tv k' ch ta,
    construct_X_multi Z D = Ok Xh ->
    shape Z = [k; n; tv] -> shape D = [k'; ch; ta] ->
    shape Xh = [n; ch; (tv + ta - 1)%nat];
  construct_X_multi_zero : forall Z D Xh,
    construct_X_multi Z D = Ok Xh -> all_zero Z -> all_zero Xh;
  randn_shape : forall st dims A st',
    randn st dims = Ok (A, st') -> shape A = map Z.to_nat dims;
}.

(** The initial atoms, when they are given, have the documented shape
    (atoms, channels + temporal support). *)
Definition uv_init_shaped (c : config) : Prop :=
  forall uv, uv_init c = Some uv ->
  exists k, shape uv = [k; (nth 1 (shape (X c)) 0 + Z.to_nat (n_times_atom c))%nat].

(** ** Specifications of calls on a store

    [agree σ0 σ]: every array of [σ0] is in [σ], unchanged.
    [keeps σ0 m Q]: run in a store that agrees with [σ0], [m] ends in a
    store that agrees with [σ0], and a value it returns satisfies [Q]. *)

Definition agree (σ0 σ : store) : Prop :=
  forall l, is_Some (σ0 !! l) -> σ !! l = σ0 !! l.

Definition keeps {A} (σ0 : store) (m : SE store A) (Q : A -> Prop) : Prop :=
  forall σ, agree σ0 σ ->
    agree σ0 (fst (m σ)) /\ forall a, snd (m σ) = Ok a -> Q a.

(** A store for the small problem: the data, activations and atoms. *)
Definition store_small : store :=
  <[2%nat := uv_long]>
    (<[1%nat := {| shape := [1; 1; 2]%nat; data := [398 # 200; 0] |}]>
       (<[0%nat := X_small]> ∅)).

(** ** Specifications of runs

    [run_spec P m Q]: started in any world, [m] appends to the record of
    events only events that satisfy [P], and a value it returns
    satisfies [Q]. *)

Definition run_spec {A} (P : event -> Prop) (m : SE world A) (Q : A -> Prop)
    : Prop :=
  forall w, exists new,
    events (fst (m w)) = events w ++ new
    /\ Forall P new
    /\ forall a, snd (m w) = Ok a -> Q a.

(** The value of [reg_] when the iteration [ii] begins. *)
Definition reg_at (c : config) (ii : nat) : Q :=
  if (ii <=? 1)%nat then reg c / 100 else reg c.

(** The exit an iteration takes once the two objectives [v1] (after the
    sparse-code update) and [v2] (after the dictionary update) are on the
    trace. *)
Definition exit_of (c : config) (v1 v2 : Q) : signal :=
  if Qlt_bool (v1 - v2) (eps c) then Break_eps
  else match stopping_pobj c with
       | Some floor =>
           if Qlt_bool v2 floor then Break_stopping_pobj else Continue
       | None => Continue
       end.

(** The regularisation an invocation of the sparse-code stage should get. *)
Definition scheduled (c : config) (ev : event) : Prop :=
  match ev with
  | Call_update_z_multi ii r _ =>
      r = if (ii =? 0)%nat then reg c / 100 else reg c
  | _ => True
  end.


(** ** The record of a run that returns

    The events of one complete iteration, and the regularisation the
    sparse-code stage gets in the iteration [ii]. *)

Definition reg_of (c : config) (ii : nat) : Q :=
  if (ii =? 0)%nat then reg c / 100 else reg c.

Definition iteration_events (c : config) (ii : nat) : list event :=
  [Call_update_z_multi ii (reg_of c ii) (solver_z c);
   Call_objective (reg c) true;
   Call_func_d ii (solver_d c);
   Call_objective (reg c) true]
  ++ match callback c with
     | Some _ => [Call_callback ii]
     | None => []
     end.

(** The events of an iteration that is left on all-zero activations. *)
Definition all_zero_events (c : config) (ii : nat) : list event :=
  [Call_update_z_multi ii (reg_of c ii) (solver_z c);
   Warn "UserWarning" all_zero_warning].

(** The small problem with a callback. *)
Definition small_callback
    (f : ndarray -> ndarray -> ndarray -> Q -> res unit) : config := {|
  X := X_small;
  n_atoms := 1;
  n_times_atom := 1;
  func_d := func_d_const uv_unit;
  reg := 1;
  n_iter := 5;
  random_state := None;
  n_jobs := 1;
  solver_z := "l_bfgs";
  solver_d := "alternate";
  uv_constraint := "separate";
  solver_d_kwargs := ∅;
  solver_z_kwargs := ∅;
  eps := 1 # 10000000000;
  uv_init := Some uv_half;
  verbose := 10;
  callback := Some f;
  stopping_pobj := None;
|}.

(** A callback that accepts atoms of unit sup-norm only. *)
Definition callback_unit (X uv_hat Z_hat : ndarray) (reg : Q) : res unit :=
  if Qle_bool (norm_inf (data uv_hat)) 1 then Ok tt
  else Raise (StageFailure "atoms outside the unit box").

Definition callback_fails (X uv_hat Z_hat : ndarray) (reg : Q) : res unit :=
  Raise (StageFailure "stop").

(** The keywords of the call of [func_d] that [**d_kwargs] must not
    repeat. *)
Definition func_d_keywords : list string :=
  ["uv_hat0"; "b_hat_0"; "solver_d"; "uv_constraint"].

(** The small problem with keyword arguments for the dictionary solver. *)
Definition small_kwargs (kw : kwargs) : config := {|
  X := X_small;
  n_atoms := 1;
  n_times_atom := 1;
  func_d := func_d_const uv_unit;
  reg := 1;
  n_iter := 5;
  random_state := None;
  n_jobs := 1;
  solver_z := "l_bfgs";
  solver_d := "alternate";
  uv_constraint := "separate";
  solver_d_kwargs := kw;
  solver_z_kwargs := ∅;
  eps := 1 # 10000000000;
  uv_init := Some uv_half;
  verbose := 10;
  callback := None;
  stopping_pobj := None;
|}.

(** The small problem with [n_jobs] workers. *)
Definition small_workers (j : Z) : config := {|
  X := X_small;
  n_atoms := 1;
  n_times_atom := 1;
  func_d := func_d_const uv_unit;
  reg := 1;
  n_iter := 5;
  random_state := None;
  n_jobs := j;
  solver_z := "l_bfgs";
  solver_d := "alternate";
  uv_constraint := "separate";
  solver_d_kwargs := ∅;
  solver_z_kwargs := ∅;
  eps := 1 # 10000000000;
  uv_init := Some uv_half;
  verbose := 10;
  callback := None;
  stopping_pobj := None;
|}.

(** The variables of the loop and the record after the iteration 1 of the
    small problem with [reg = 1], and the record when the driver
    returns. *)
Definition locals2 : locals := {|
  uv_hat := uv_unit;
  Z_hat := {| shape := [1; 1; 2]%nat; data := [3; 0] |};
  pobj := [256 # 32; 1665283200 # 256000000; 64160800 # 16000000;
           7 # 2; 7 # 2];
  times := [0; 1; 1; 1; 1];
  reg_ := 1;
|}.

Definition world2 : world := {|
  events := events world1
            ++ [Call_update_z_multi 1 1 "l_bfgs"; Call_objective 1 true;
                Call_func_d 1 "alternate"; Call_objective 1 true];
  clock := 8;
|}.

Definition world_end : world := {|
  events := [Call_prox_uv "separate"; Call_objective 1 true]
            ++ events world2 ++ [Call_support_least_square];
  clock := 8;
|}.

(** * [alphacsc/utils/whitening.py]

    The filters of the whitening stage.  [scipy.signal.fftconvolve] is the
    convolution it computes, in exact arithmetic; the estimation of the
    autoregressive model ([pactools]' [Arma]), the Tukey window and the
    plots are collaborators. *)

Module Whitening.

(** Exceptions: those of numpy, as in the driver, and the further ones
    this module raises. *)
Inductive error : Type :=
| Numpy (e : exn)
| AssertionError (msg : string)
| NotImplementedError (msg : string)
| ZeroDivisionError (msg : string)
| Collaborator (msg : string).

Inductive result (A : Type) : Type :=
| Return (a : A)
| Throw (e : error).
Arguments Return {A} a.
Arguments Throw {A} e.

Definition result_bind {A B} (r : result A) (k : A -> result B) : result B :=
  match r with
  | Return a => k a
  | Throw e => Throw e
  end.

#[global] Instance result_ret : MRet result := fun A a => Return a.
#[global] Instance result_mbind : MBind result :=
  fun A B k r => result_bind r k.

Definition of_res {A} (r : res A) : result A :=
  match r with
  | Ok a => Return a
  | Raise e => Throw (Numpy e)
  end.

(** [mapM]: a list comprehension whose body can raise. *)
Fixpoint for_each {A B} (f : A -> result B) (l : list A) : result (list B) :=
  match l with
  | [] => Return []
  | a :: l' =>
      b ← f a;
      bs ← for_each f l';
      mret (b :: bs)
  end.

(** A one-dimensional array. *)
Definition vector (l : list Q) : ndarray :=
  {| shape := [length l]; data := l |}.

(** [A[::-1]] *)
Definition flip (A : ndarray) : result ndarray :=
  match shape A with
  | [] => Throw (Numpy (IndexError "too many indices for array"))
  | [_] => Return {| shape := shape A; data := rev (data A) |}
  | d :: s =>
      Return {| shape := shape A;
                data := concat (rev (map (fun i => take (size_of s)
                                                     (drop (i * size_of s)
                                                        (data A)))
                                         (seq 0 d))) |}
  end.

(** The full convolution of two sequences: entry [k] is the sum of the
    [x[k - j] * a[j]]. *)
Definition conv_full (x a : list Q) : list Q :=
  map (fun k =>
         qsum (map (fun j => if (j <=? k)%nat
                             then nth (k - j) x 0 * nth j a 0 else 0)
                   (seq 0 (length a))))
      (seq 0 (length x + length a - 1)).

(** scipy's [_centered]: the middle [n] entries. *)
Definition centered (l : list Q) (n : nat) : list Q :=
  take n (drop ((length l - n) / 2) l).

(** [signal.fftconvolve(in1, in2, mode)] for a one-dimensional [in2], the
    way [apply_ar] calls it. *)
Definition fftconvolve (in1 : ndarray) (in2 : list Q) (mode : string)
    : result ndarray :=
  match shape in1 with
  | [_] =>
      let n := length (data in1) in
      let m := length in2 in
      if (n =? 0)%nat || (m =? 0)%nat then Return (vector [])
      else
        let full := conv_full (data in1) in2 in
        if bool_decide (mode = "full") then Return (vector full)
        else if bool_decide (mode = "same") then
          Return (vector (centered full n))
        else if bool_decide (mode = "valid") then
          Return (vector (centered full (Nat.max n m - Nat.min n m + 1)))
        else Throw (Numpy (ValueError
               "acceptable mode flags are 'valid', 'same', or 'full'"))
  | _ => Throw (Numpy (ValueError
           "in1 and in2 should have the same dimensionality"))
  end.

(** The rows [A[0], A[1], ...] of an array with at least one axis. *)
Definition rows_of (A : ndarray) : list ndarray :=
  match shape A with
  | [] => []
  | d :: s =>
      map (fun i => {| shape := s;
                       data := take (size_of s)
                                 (drop (i * size_of s) (data A)) |})
          (seq 0 d)
  end.

(** [np.array(l)] for a list of arrays of one shape. *)
Definition np_array (l : list ndarray) : result ndarray :=
  match l with
  | [] => Return {| shape := [0%nat]; data := [] |}
  | A :: _ =>
      if forallb (fun B => bool_decide (shape B = shape A)) l
      then Return {| shape := length l :: shape A;
                     data := flat_map data l |}
      else Throw (Numpy (ValueError "inhomogeneous shape"))
  end.

(** Where a slice [[:i]] or [[i:]] cuts an axis of length [m]. *)
Definition cut (m : nat) (i : Z) : nat :=
  if (i <? 0)%Z then Z.to_nat (Z.max 0 (Z.of_nat m + i))
  else Nat.min (Z.to_nat i) m.

(** The autoregressive model and the other collaborators.  The methods
    of [Arma] change the object: they return its new state. *)
Class Arma_api : Type := {
  arma : Type;
  AR_ : arma -> ndarray;
  psd : arma -> list ndarray;
  set_psd : arma -> list ndarray -> arma;
  Arma : Z -> Z -> Q -> Z -> result arma;
  periodogram : arma -> ndarray -> bool -> bool -> result arma;
  estimate : arma -> result arma;
  arma2psd : arma -> bool -> result arma;
  plot : arma -> string -> list string -> string -> result arma;
  plt_legend : string -> result unit;
  np_sqrt : ndarray -> ndarray;
  np_reciprocal : ndarray -> ndarray;
  tukey : nat -> Q -> result ndarray;
}.

Section Filters.
Context `{Arma_api}.

(** [apply_ar(ar_model, x, zero_phase, mode, reverse_ar)] *)
Definition apply_ar (ar_model : arma) (x : ndarray) (zero_phase : bool)
    (mode : string) (reverse_ar : bool) : result ndarray :=
  ar_coef ← match shape (AR_ ar_model) with
            | [_] => Return (1 :: data (AR_ ar_model))
            | _ => Throw (Numpy (ValueError
                     "all the input arrays must have same number of dimensions"))
            end;
  let ar_coef := if reverse_ar then rev ar_coef else ar_coef in
  if zero_phase then
    tmp ← fftconvolve x ar_coef mode;
    tmp ← flip tmp;
    out ← fftconvolve tmp ar_coef mode;
    flip out
  else fftconvolve x ar_coef mode.

(** [apply_whitening(ar_model, X, zero_phase, mode, reverse_ar,
      n_channels)] *)
Definition apply_whitening (ar_model : arma) (X : ndarray)
    (zero_phase : bool) (mode : string) (reverse_ar : bool)
    (n_channels : option Z) : result ndarray :=
  match shape X with
  | [k; m] =>
      match n_channels with
      | None => Throw (AssertionError
                  "For rank1 D, n_channels should be provided")
      | Some n_channels =>
          let s := cut m n_channels in
          let v := map (fun r => vector (drop s (data r))) (rows_of X) in
          v_white ← for_each (fun vk => apply_ar ar_model vk zero_phase mode
                                          false) v;
          match v_white with
          | [] => Return {| shape := [0%nat; (s + 1)%nat]; data := [] |}
          | w0 :: _ =>
              if forallb (fun w => bool_decide (shape w = shape w0)) v_white
              then Return
                     {| shape := [k; (s + length (data w0))%nat];
                        data := concat
                                  (zip_with (fun r w => take s (data r)
                                                        ++ data w)
                                     (rows_of X) v_white) |}
              else Throw (Numpy (ValueError "inhomogeneous shape"))
          end
      end
  | [_; _; _] =>
      rows ← for_each
               (fun Xi =>
                  Xi_white ← for_each
                               (fun Xij => apply_ar ar_model Xij zero_phase
                                             mode reverse_ar)
                               (rows_of Xi);
                  np_array Xi_white)
               (rows_of X);
      np_array rows
  | _ => Throw (NotImplementedError "Should not be called!")
  end.

(** [ar_model.psd[-1] = f(ar_model.psd[-1])] *)
Definition update_last_psd (f : ndarray -> ndarray) (ar_model : arma)
    : result arma :=
  match rev (psd ar_model) with
  | [] => Throw (Numpy (IndexError "list index out of range"))
  | last :: before => Return (set_psd ar_model (rev before ++ [f last]))
  end.

(** [A.reshape(-1, n)] *)
Definition reshape_rows (A : ndarray) (n : nat) : result ndarray :=
  let size := size_of (shape A) in
  if (n =? 0)%nat || negb (size mod n =? 0)%nat
  then Throw (Numpy (ValueError "cannot reshape array"))
  else Return {| shape := [(size / n)%nat; n]; data := data A |}.

(** [A[None, None, :]] *)
Definition expand_front (A : ndarray) : result ndarray :=
  match shape A with
  | [] => Throw (Numpy (IndexError "too many indices for array"))
  | s => Return {| shape := 1%nat :: 1%nat :: s; data := data A |}
  end.

(** [n_trials, n_channels, n_times = A.shape] *)
Definition unpack3 (A : ndarray) : result (nat * nat * nat) :=
  match shape A with
  | [a; b; c] => Return (a, b, c)
  | _ => Throw (Numpy (ValueError "cannot unpack the shape"))
  end.

(** [whitening(X, ordar, block_length, sfreq, zero_phase, plot)] *)
Definition whitening (X : ndarray) (ordar block_length : Z) (sfreq : Q)
    (zero_phase plot_ : bool) : result (arma * ndarray) :=
  '(n_trials, n_channels, n_times) ← unpack3 X;
  ar_model ← Arma ordar 0 sfreq block_length;
  flat ← reshape_rows X n_times;
  ar_model ← periodogram ar_model flat false true;
  ar_model ← (if zero_phase then update_last_psd np_sqrt ar_model
              else Return ar_model);
  ar_model ← estimate ar_model;
  X_white ← apply_whitening ar_model X zero_phase "same" false None;
  if negb (bool_decide (shape X_white = shape X))
  then Throw (AssertionError "")
  else
    n_times_white ← match last (shape X_white) with
                    | Some n => Return n
                    | None => Throw (Numpy (IndexError
                                "tuple index out of range"))
                    end;
    alpha ← (if (n_times_white =? 0)%nat
             then Throw (ZeroDivisionError "float division by zero")
             else Return (3 / inject_Z (Z.of_nat n_times_white)));
    window ← tukey n_times_white alpha;
    window ← expand_front window;
    X_white ← of_res (np_imul X_white window);
    ar_model ← (if plot_ then
                  ar_model ← arma2psd ar_model true;
                  flat ← reshape_rows X_white n_times;
                  ar_model ← periodogram ar_model flat true true;
                  ar_model ← plot ar_model
                               "periodogram before/after whitening"
                               ["signal"; "model AR"; "signal white"] "lin";
                  plt_legend "lower left";;
                  Return ar_model
                else Return ar_model);
    Return (ar_model, X_white).

(** [unwhitening(ar_model, X_white, estimate, zero_phase, plot)].  The
    model is changed in place: its new state is returned with the
    signal. *)
Definition unwhitening (ar_model : arma) (X_white : ndarray)
    (estimate_ zero_phase plot_ : bool) : result (arma * ndarray) :=
  let X_white := match shape X_white with
                 | [_; _] => {| shape := 1%nat :: shape X_white;
                                data := data X_white |}
                 | _ => X_white
                 end in
  '(n_trials, n_channels, n_times) ← unpack3 X_white;
  ar_model ← (if estimate_ then
                ar_model ← arma2psd ar_model true;
                ar_model ← update_last_psd np_reciprocal ar_model;
                ar_model ← (if zero_phase
                            then update_last_psd np_sqrt ar_model
                            else Return ar_model);
                estimate ar_model
              else Return ar_model);
  rows ← for_each
           (fun Xi =>
              Xi_white ← for_each
                           (fun Xij => apply_ar ar_model Xij zero_phase
                                         "same" false)
                           (rows_of Xi);
              np_array Xi_white)
           (rows_of X_white);
  X_unwhite ← np_array rows;
  if negb (bool_decide (shape X_unwhite = shape X_white))
  then Throw (AssertionError "")
  else
    ar_model ← (if plot_ then
                  flat ← reshape_rows X_white n_times;
                  ar_model ← periodogram ar_model flat false true;
                  ar_model ← arma2psd ar_model true;
                  flat ← reshape_rows X_unwhite n_times;
                  ar_model ← periodogram ar_model flat true true;
                  ar_model ← plot ar_model
                               "periodogram before/after unwhitening"
                               ["signal white"; "model AR"; "signal unwhite"]
                               "lin";
                  plt_legend "lower left";;
                  Return ar_model
                else Return ar_model);
    Return (ar_model, X_unwhite).

End Filters.

(** A stand-in for [pactools]' [Arma]: the coefficients and the list of
    spectra; the estimation keeps the coefficients. *)
Record arma_state : Type := {
  coefficients : list Q;
  spectra : list ndarray;
}.

#[global] Instance arma_model : Arma_api := {|
  arma := arma_state;
  AR_ := fun m => vector (coefficients m);
  psd := spectra;
  set_psd := fun m l => {| coefficients := coefficients m; spectra := l |};
  Arma := fun ordar ordma fs block_length =>
            Return {| coefficients := repeat (1 # 2) (Z.to_nat ordar);
                      spectra := [] |};
  periodogram := fun m A hold mean_psd =>
                   Return {| coefficients := coefficients m;
                             spectra := (if hold then spectra m else [])
                                        ++ [A] |};
  estimate := fun m => Return m;
  arma2psd := fun m hold =>
                Return {| coefficients := coefficients m;
                          spectra := (if hold then spectra m else [])
                                     ++ [vector (coefficients m)] |};
  plot := fun m title labels fscale => Return m;
  plt_legend := fun loc => Return tt;
  np_sqrt := fun A => A;
  np_reciprocal := fun A => A;
  tukey := fun n alpha =>
             Return (vector (map (fun i => if (i =? 0)%nat
                                             || (S i =? n)%nat
                                           then 0 else 1) (seq 0 n)));
|}.

(** A model of order 1 and two one-channel trials of three samples. *)
Definition ar_half : arma_state :=
  {| coefficients := [-1 # 2]; spectra := [] |}.

Definition trials : ndarray :=
  {| shape := [2; 1; 3]%nat; data := [1; 2; 4; 0; 1; 0] |}.

(** Two atoms of rank 1: one channel and three temporal samples. *)
Definition atoms : ndarray :=
  {| shape := [2; 4]%nat; data := [1; 1; 2; 4; 1 # 2; 0; 1; 0] |}.

End Whitening.

(** ** Signals up to the equality of rationals

    [entries_eq u v]: the signals [u] and [v] have the same length and the
    same entries.  [entries_lin c u v w]: [w] is [c * u + v]. *)

Definition entries_eq (u v : list Q) : Prop :=
  length u = length v /\ forall i, nth i u 0 == nth i v 0.

Definition entries_lin (c : Q) (u v w : list Q) : Prop :=
  length u = length v /\ length w = length v
  /\ forall i, nth i w 0 == c * nth i u 0 + nth i v 0.
(** * Properties *)

Section RunSpec.
Context {A B : Type} (P : event -> Prop).

Lemma run_spec_ret (a : A) (Q : A -> Prop) :
  Q a -> run_spec P (se_ret a) Q.
Proof.
  intros HQ w. exists []. cbn. rewrite app_nil_r.
  repeat split; [constructor|]. intros ? [= <-]. exact HQ.
Qed.

Lemma run_spec_lift (r : res A) (Q : A -> Prop) :
  (forall a, r = Ok a -> Q a) -> run_spec P (se_lift r) Q.
Proof.
  intros HQ w. exists []. cbn. rewrite app_nil_r.
  repeat split; [constructor|]. exact HQ.
Qed.

Lemma run_spec_emit (ev : event) :
  P ev -> run_spec P (emit ev) (fun _ => True).
Proof.
  intros Hev w. exists [ev]. cbn. repeat split. by constructor.
Qed.

Lemma run_spec_bind (m : SE world A) (k : A -> SE world B)
    (Q : A -> Prop) (R : B -> Prop) :
  run_spec P m Q -> (forall a, Q a -> run_spec P (k a) R) ->
  run_spec P (se_bind m k) R.
Proof.
  intros Hm Hk w. destruct (Hm w) as (new & Hev & Hnew & HQ).
  unfold se_bind. destruct (m w) as [w1 [a|e]]; cbn in *.
  - destruct (Hk a (HQ a eq_refl) w1) as (new' & Hev' & Hnew' & HR).
    exists (new ++ new'). rewrite Hev', Hev, app_assoc.
    repeat split; [by apply Forall_app|exact HR].
  - exists new. repeat split; [done..|]. intros ? [=].
Qed.

Lemma run_spec_weaken (m : SE world A) (Q Q' : A -> Prop) :
  run_spec P m Q -> (forall a, Q a -> Q' a) -> run_spec P m Q'.
Proof.
  intros Hm HQ w. destruct (Hm w) as (new & Hev & Hnew & Hpost).
  exists new. repeat split; [done..|]. intros a Ha. apply HQ, Hpost, Ha.
Qed.

End RunSpec.

Section DriverSpec.
Context `{Stages}.

Lemma run_spec_now (P : event -> Prop) :
  run_spec P now (fun _ => True).
Proof. intros w. exists []. cbn. rewrite app_nil_r. by repeat split. Qed.

Lemma run_spec_call {A} (P : event -> Prop) (ev : event) (r : res A)
    (Q : A -> Prop) :
  P ev -> (forall a, r = Ok a -> Q a) -> run_spec P (call ev r) Q.
Proof.
  intros Hev HQ. unfold call.
  eapply run_spec_bind; [by apply run_spec_emit|].
  intros _ _. by apply run_spec_lift.
Qed.

End DriverSpec.

(** Steps through a run: one statement of the driver at a time. *)
Ltac run_step :=
  lazymatch goal with
  | |- run_spec _ (se_bind now _) _ =>
      eapply run_spec_bind; [apply run_spec_now | intros ? _]
  | |- run_spec _ (se_bind (call _ _) _) _ =>
      eapply run_spec_bind;
      [apply run_spec_call with (Q := fun _ => True); [|done] | intros ? _]
  | |- run_spec _ (se_bind (monitor _ _ _) _) _ =>
      eapply run_spec_bind;
      [apply run_spec_call with (Q := fun _ => True); [|done] | intros ? _]
  | |- run_spec _ (se_bind (se_lift _) _) _ =>
      eapply run_spec_bind;
      [apply run_spec_lift with (Q := fun _ => True); done | intros ? _]
  | |- run_spec _ (se_bind (emit _) _) _ =>
      eapply run_spec_bind; [apply run_spec_emit | intros ? _]
  | |- run_spec _ (se_bind (se_ret _) _) _ =>
      eapply run_spec_bind;
      [apply run_spec_ret with (Q := fun _ => True); done | intros ? _]
  | |- run_spec _ (se_bind (match ?x with _ => _ end) _) _ =>
      destruct x
  | |- run_spec _ (se_ret _) _ => apply run_spec_ret
  | |- run_spec _ (if ?b then _ else _) _ => destruct b
  | |- run_spec _ (match ?x with _ => _ end) _ => destruct x
  end.

Section Schedule.
Context `{Stages}.

Lemma body_scheduled c b ii l :
  reg_ l = reg_at c ii ->
  run_spec (scheduled c) (body c b ii l)
           (fun r => reg_ (snd r) = reg_at c (S ii)).
Proof.
  intros Hinv.
  assert (Hreg : (if (ii =? 1)%nat then reg c else reg_ l)
                 = if (ii =? 0)%nat then reg c / 100 else reg c).
  { rewrite Hinv. unfold reg_at. by destruct ii as [|[|ii]]. }
  assert (Hnext : (if (ii =? 1)%nat then reg c else reg_ l)
                  = reg_at c (S ii)).
  { rewrite Hreg. unfold reg_at. by destruct ii as [|[|ii]]. }
  unfold body.
  repeat (run_step; try exact I; try exact Hreg; try exact Hnext).
Qed.

Lemma loop_scheduled c b n : forall a l,
  reg_ l = reg_at c a ->
  run_spec (scheduled c) (loop c b (seq a n) l) (fun _ => True).
Proof.
  induction n as [|n IH]; intros a l Hinv; cbn [seq loop].
  - by apply run_spec_ret.
  - eapply run_spec_bind; [by apply body_scheduled|].
    intros [sg l'] Hl'. cbn [fst snd] in *.
    destruct sg; try by apply run_spec_ret.
    by apply IH.
Qed.

Lemma initialise_scheduled c :
  run_spec (scheduled c) (initialise c)
           (fun init => reg_ (snd init) = reg_at c 0).
Proof.
  unfold initialise.
  run_step. destruct a as [[n_trials n_chan] n_times].
  run_step; (run_step; destruct a as [uv_hat0 rng];
             repeat (run_step; try exact I); reflexivity).
Qed.

Lemma finish_scheduled c l :
  run_spec (scheduled c) (finish c l) (fun _ => True).
Proof. unfold finish. repeat (run_step; try exact I). Qed.

(** The record of every run of the driver, failing runs included: a call
    of the sparse-code stage recorded for the iteration [ii] carries
    [reg / 100] when [ii] is 0 and [reg] from the iteration 1 onward. *)
Lemma warm_up_record c w :
  exists new,
    events (fst (learn_d_z_multi c w)) = events w ++ new
    /\ forall ii r s,
         In (Call_update_z_multi ii r s) new ->
         r = if (ii =? 0)%nat then reg c / 100 else reg c.
Proof.
  assert (Hrun : run_spec (scheduled c) (learn_d_z_multi c) (fun _ => True)).
  { unfold learn_d_z_multi.
    eapply run_spec_bind; [apply initialise_scheduled|].
    intros [b l] Hl. cbn [fst snd] in *.
    eapply run_spec_bind;
      [apply run_spec_lift with (Q := fun _ => True); done|].
    intros _ _.
    eapply run_spec_bind; [by apply loop_scheduled|].
    intros r _. apply finish_scheduled. }
  destruct (Hrun w) as (new & Hev & Hnew & _).
  exists new. split; [exact Hev|].
  intros ii r s Hin. rewrite Forall_forall in Hnew.
  apply list_elem_of_In in Hin. exact (Hnew _ Hin).
Qed.

End Schedule.

(** ** One iteration *)

Lemma from_end_1 {A} (l : list A) (a : A) : from_end (l ++ [a]) 1 = Ok a.
Proof. unfold from_end. by rewrite rev_unit. Qed.

Lemma from_end_2 {A} (l : list A) (a b : A) :
  from_end ((l ++ [a]) ++ [b]) 2 = Ok a.
Proof. unfold from_end. by rewrite !rev_unit. Qed.

Lemma Qlt_bool_iff (x y : Q) : Qlt_bool x y = true <-> x < y.
Proof.
  unfold Qlt_bool. rewrite Qlt_alt. destruct (x ?= y); intuition congruence.
Qed.

Section Iteration.
Context `{Stages}.

(** What an iteration that returns has done. *)
Lemma body_inv c b ii l w w' sg l' :
  body c b ii l w = (w', Ok (sg, l')) ->
  let reg_' := if (ii =? 1)%nat then reg c else reg_ l in
  exists t1,
    update_z_multi (X c) (uv_hat l) reg_' (Z_hat l) (solver_z c)
      (solver_z_kwargs c) = Ok (Z_hat l')
    /\ reg_ l' = reg_'
    /\ ((count_nonzero (Z_hat l') = 0%nat
         /\ sg = Break_all_zero
         /\ uv_hat l' = uv_hat l
         /\ pobj l' = pobj l
         /\ times l' = times l ++ [t1]
         /\ events w' = events w
              ++ [Call_update_z_multi ii reg_' (solver_z c);
                  Warn "UserWarning" all_zero_warning])
        \/ (count_nonzero (Z_hat l') <> 0%nat
            /\ exists v1 v2 t2,
                 compute_X_and_objective_multi (X c) (Z_hat l') (uv_hat l)
                   (reg c) true (uv_constraint c) = Ok v1
                 /\ call_func_d c (Z_hat l') (uv_hat l) b = Ok (uv_hat l')
                 /\ compute_X_and_objective_multi (X c) (Z_hat l')
                      (uv_hat l') (reg c) true (uv_constraint c) = Ok v2
                 /\ pobj l' = pobj l ++ [v1; v2]
                 /\ times l' = times l ++ [t1; t2]
                 /\ sg = exit_of c v1 v2
                 /\ events w' = events w
                      ++ [Call_update_z_multi ii reg_' (solver_z c);
                          Call_objective (reg c) true;
                          Call_func_d ii (solver_d c);
                          Call_objective (reg c) true]
                      ++ match callback c with
                         | Some _ => [Call_callback ii]
                         | None => []
                         end)).
Proof.
  intros Hrun reg_'. revert Hrun.
  unfold body, monitor, call, emit, now, se_modify, se_lift, se_ret, se_bind.
  fold reg_'. cbn [events clock].
  destruct (update_z_multi _ _ _ _ _ _) as [Z'|e] eqn:HZ; [|done].
  destruct (count_nonzero Z' =? 0)%nat eqn:Hnz.
  - intros [= <- <- <-]. cbn. eexists. do 2 (split; [done|]).
    left. apply Nat.eqb_eq in Hnz. split_and!; try done.
    by rewrite <- app_assoc.
  - destruct (compute_X_and_objective_multi _ Z' (uv_hat l) _ _ _)
      as [v1|e] eqn:Hv1; [|done].
    destruct (call_func_d _ _ _ _) as [uv'|e] eqn:Huv; [|done].
    destruct (compute_X_and_objective_multi _ Z' uv' _ _ _)
      as [v2|e] eqn:Hv2; [|done].
    rewrite from_end_2, from_end_1.
    intros Hrun.
    assert (Hrest : exists evs,
      evs = match callback c with
            | Some _ => [Call_callback ii] | None => [] end
      /\ w' = {| events := ((((events w
                   ++ [Call_update_z_multi ii reg_' (solver_z c)])
                   ++ [Call_objective (reg c) true])
                   ++ [Call_func_d ii (solver_d c)])
                   ++ [Call_objective (reg c) true]) ++ evs;
                 clock := S (S (S (S (clock w)))) |}
      /\ sg = exit_of c v1 v2
      /\ l' = {| uv_hat := uv'; Z_hat := Z';
                 pobj := (pobj l ++ [v1]) ++ [v2];
                 times := (times l ++ [time_time (S (clock w))
                                       - time_time (clock w)])
                          ++ [time_time (S (S (S (clock w))))
                              - time_time (S (S (clock w)))];
                 reg_ := reg_' |}).
    { unfold exit_of. destruct (callback c) as [f|].
      - destruct (f _ _ _ _) as [[]|e]; [|done]. cbn in Hrun.
        eexists; split; [done|].
        destruct (Qlt_bool (v1 - v2) (eps c));
          [|destruct (stopping_pobj c) as [fl|];
            [destruct (Qlt_bool v2 fl)|]];
          injection Hrun as <- <- <-; done.
      - cbn in Hrun. eexists; split; [done|]. rewrite app_nil_r.
        destruct (Qlt_bool (v1 - v2) (eps c));
          [|destruct (stopping_pobj c) as [fl|];
            [destruct (Qlt_bool v2 fl)|]];
          injection Hrun as <- <- <-; done. }
    destruct Hrest as (evs & -> & -> & -> & ->). cbn.
    eexists. do 2 (split; [done|]).
    right. apply Nat.eqb_neq in Hnz. split; [done|].
    exists v1, v2. eexists. split_and!; try done.
    + by rewrite <- app_assoc.
    + by rewrite <- app_assoc.
    + by rewrite <- !app_assoc.
Qed.

(** An iteration whose sparse-code stage raises. *)
Lemma body_stage_raises c b ii l w e :
  update_z_multi (X c) (uv_hat l) (if (ii =? 1)%nat then reg c else reg_ l)
    (Z_hat l) (solver_z c) (solver_z_kwargs c) = Raise e ->
  exists w', body c b ii l w = (w', Raise e).
Proof.
  intros HZ.
  unfold body, monitor, call, emit, now, se_modify, se_lift, se_ret, se_bind.
  cbn [events clock]. rewrite HZ. by eexists.
Qed.

(** The loop after an iteration that returns: it goes on with the
    iterations left, or it is left with the state of that iteration. *)
Lemma loop_step c b ii iis l w w' sg l' :
  body c b ii l w = (w', Ok (sg, l')) ->
  loop c b (ii :: iis) l w
  = match sg with
    | Continue => loop c b iis l' w'
    | _ => (w', Ok (sg, l'))
    end.
Proof.
  intros Hbody. cbn [loop]. unfold se_bind. rewrite Hbody. cbn [fst snd].
  by destruct sg.
Qed.

(** Iterations that all fall through, followed by more. *)
Lemma loop_app c b iis iis' : forall l w w1 l1,
  loop c b iis l w = (w1, Ok (Continue, l1)) ->
  loop c b (iis ++ iis') l w = loop c b iis' l1 w1.
Proof.
  induction iis as [|ii iis IH]; intros l w w1 l1; cbn [loop app].
  - by intros [= <- <-].
  - unfold se_bind. destruct (body c b ii l w) as [w2 [[sg l2]|e]]; [|done].
    cbn [fst snd]. destruct sg; try done. apply IH.
Qed.

(** The value of [reg_] after iterations that all fall through. *)
Lemma loop_reg c b n : forall a l w w1 l1,
  reg_ l = reg_at c a ->
  loop c b (seq a n) l w = (w1, Ok (Continue, l1)) ->
  reg_ l1 = reg_at c (a + n).
Proof.
  induction n as [|n IH]; intros a l w w1 l1 Hreg; cbn [seq loop].
  - intros [= _ <-]. by rewrite Nat.add_0_r.
  - unfold se_bind.
    destruct (body c b a l w) as [w2 [[sg l2]|e]] eqn:Hbody; [|done].
    cbn [fst snd]. destruct sg; try done. intros Hloop.
    destruct (body_inv _ _ _ _ _ _ _ _ Hbody) as (_ & _ & Hreg2 & _).
    replace (a + S n)%nat with (S a + n)%nat by lia.
    apply (IH (S a) l2 w2 w1 l1); [|exact Hloop].
    rewrite Hreg2, Hreg. unfold reg_at. by destruct a as [|[|a]].
Qed.

End Iteration.

(** ** The small problem *)

Lemma initialise_small n floor :
  initialise (small n 1 floor) world0
  = ({| events := [Call_prox_uv "separate"; Call_objective 1 true];
        clock := 0 |},
     Ok (b_hat_small, locals0)).
Proof. reflexivity. Qed.

Lemma initialise_small_long n :
  initialise (small_long n) world0
  = ({| events := [Call_prox_uv "separate"; Call_objective 1 true];
        clock := 0 |},
     Ok (b_hat_small, locals0)).
Proof. reflexivity. Qed.

(** ** The entries of the trace *)

Section Trace.
Context `{Stages}.

(** C1, as the code has it.  In every iteration that reaches the
    dictionary update, the two objectives appended to the trace, after
    the sparse-code update and after the dictionary update, are values
    of the evaluator with [feasible_evaluation] true (on copies, the atom
    bank is projected and the activations rescaled) and with the full
    regularisation [reg], whatever the iteration and the value of
    [reg_]. *)
Theorem trace_entries_feasible c b ii l w w' sg l' :
  body c b ii l w = (w', Ok (sg, l')) ->
  sg <> Break_all_zero ->
  exists v1 v2,
    pobj l' = pobj l ++ [v1; v2]
    /\ compute_X_and_objective_multi (X c) (Z_hat l') (uv_hat l) (reg c)
         true (uv_constraint c) = Ok v1
    /\ compute_X_and_objective_multi (X c) (Z_hat l') (uv_hat l') (reg c)
         true (uv_constraint c) = Ok v2.
Proof.
  intros Hrun Hsg.
  destruct (body_inv _ _ _ _ _ _ _ _ Hrun) as (t1 & _ & _ & [Hzero|Hfull]).
  - by destruct Hzero as (_ & -> & _).
  - destruct Hfull as (_ & v1 & v2 & t2 & Hv1 & _ & Hv2 & Hpobj & _).
    by exists v1, v2.
Qed.

(** C7.  In an iteration [ii] that reaches the dictionary update, the
    loop is left at the convergence check exactly when the entry before
    the last one (the objective after the sparse-code update) less the
    last entry (the objective after the dictionary update) is strictly
    below [eps].  Then the loop returns with the state of the iteration
    [ii], whatever iterations [iis] are left; otherwise it goes to the
    target check, which leaves the loop or lets it go on with [iis]. *)
Theorem convergence_check c b ii iis l w w' sg l' :
  body c b ii l w = (w', Ok (sg, l')) ->
  sg <> Break_all_zero ->
  exists v1 v2,
    pobj l' = pobj l ++ [v1; v2]
    /\ from_end (pobj l') 2 = Ok v1
    /\ from_end (pobj l') 1 = Ok v2
    /\ (sg = Break_eps <-> v1 - v2 < eps c)
    /\ (v1 - v2 < eps c ->
        loop c b (ii :: iis) l w = (w', Ok (Break_eps, l')))
    /\ (~ v1 - v2 < eps c ->
        loop c b (ii :: iis) l w
        = match stopping_pobj c with
          | Some floor =>
              if Qlt_bool v2 floor then (w', Ok (Break_stopping_pobj, l'))
              else loop c b iis l' w'
          | None => loop c b iis l' w'
          end).
Proof.
  intros Hrun Hsg. rewrite (loop_step _ _ _ iis _ _ _ _ _ Hrun).
  destruct (body_inv _ _ _ _ _ _ _ _ Hrun) as (t1 & _ & _ & [Hzero|Hfull]).
  - by destruct Hzero as (_ & -> & _).
  - destruct Hfull as (_ & v1 & v2 & t2 & _ & _ & _ & Hpobj & _ & -> & _).
    exists v1, v2. rewrite Hpobj.
    change (pobj l ++ [v1; v2]) with (pobj l ++ [v1] ++ [v2]).
    rewrite app_assoc, from_end_1, from_end_2.
    rewrite <- !Qlt_bool_iff. unfold exit_of.
    destruct (Qlt_bool (v1 - v2) (eps c)).
    + split_and!; done.
    + split_and!; try done.
      * destruct (stopping_pobj c) as [fl|]; [destruct (Qlt_bool v2 fl)|];
          split; congruence.
      * intros _.
        destruct (stopping_pobj c) as [fl|]; [destruct (Qlt_bool v2 fl)|];
          done.
Qed.

(** C4, as the code has it.  With a floor configured, in an iteration
    [ii] that reaches the dictionary update the loop is left whenever the
    last entry of the trace is strictly below the floor: the loop
    returns with the state of the iteration [ii], whatever iterations
    [iis] are left.  The exit at the target check is taken exactly when
    the convergence check did not fire and the last entry is strictly
    below the floor.  With the last entry at the floor or above it, and
    no convergence, the loop goes on with the iterations left. *)
Theorem target_check c b ii iis l w w' sg l' floor :
  body c b ii l w = (w', Ok (sg, l')) ->
  sg <> Break_all_zero ->
  stopping_pobj c = Some floor ->
  exists v1 v2,
    pobj l' = pobj l ++ [v1; v2]
    /\ from_end (pobj l') 1 = Ok v2
    /\ (v2 < floor -> sg <> Continue)
    /\ (sg = Break_stopping_pobj <-> ~ v1 - v2 < eps c /\ v2 < floor)
    /\ (v2 < floor -> loop c b (ii :: iis) l w = (w', Ok (sg, l')))
    /\ (~ v1 - v2 < eps c -> ~ v2 < floor ->
        loop c b (ii :: iis) l w = loop c b iis l' w').
Proof.
  intros Hrun Hsg Hfloor. rewrite (loop_step _ _ _ iis _ _ _ _ _ Hrun).
  destruct (body_inv _ _ _ _ _ _ _ _ Hrun) as (t1 & _ & _ & [Hzero|Hfull]).
  - by destruct Hzero as (_ & -> & _).
  - destruct Hfull as (_ & v1 & v2 & t2 & _ & _ & _ & Hpobj & _ & -> & _).
    exists v1, v2. rewrite Hpobj.
    change (pobj l ++ [v1; v2]) with (pobj l ++ [v1] ++ [v2]).
    rewrite app_assoc, from_end_1.
    rewrite <- !Qlt_bool_iff. unfold exit_of. rewrite Hfloor.
    destruct (Qlt_bool (v1 - v2) (eps c)), (Qlt_bool v2 floor);
      split_and!; try done; intuition congruence.
Qed.

End Trace.

(** C1, on the small problem with the dictionary update that leaves the
    feasible set: the entry appended after the dictionary update is not
    the raw objective of the atoms and activations the driver holds. *)
Lemma trace_entry_not_raw :
  exists w' sg l' v v_raw,
    body (small_long 1) b_hat_small 0 locals0 world0 = (w', Ok (sg, l'))
    /\ from_end (pobj l') 1 = Ok v
    /\ compute_X_and_objective_multi X_small (Z_hat l') (uv_hat l') 1 false
         "separate" = Ok v_raw
    /\ ~ v == v_raw.
Proof.
  do 5 eexists. split_and!.
  - vm_compute. reflexivity.
  - vm_compute. reflexivity.
  - vm_compute. reflexivity.
  - intros Heq. vm_compute in Heq. discriminate.
Qed.

Lemma trace_entries_feasible_witness :
  exists v1 v2,
    [256 # 32; 1665283200 # 256000000; 1018931200 # 256000000]
    = [256 # 32] ++ [v1; v2]
    /\ compute_X_and_objective_multi X_small
         {| shape := [1; 1; 2]%nat; data := [398 # 200; 0] |} uv_half 1
         true "separate" = Ok v1
    /\ compute_X_and_objective_multi X_small
         {| shape := [1; 1; 2]%nat; data := [398 # 200; 0] |} uv_long 1
         true "separate" = Ok v2.
Proof.
  apply (trace_entries_feasible (small_long 1) b_hat_small 0%nat locals0
           world0
           {| events := [Call_update_z_multi 0 (1 / 100) "l_bfgs";
                         Call_objective 1 true; Call_func_d 0 "alternate";
                         Call_objective 1 true];
              clock := 4 |}
           Continue
           {| uv_hat := uv_long;
              Z_hat := {| shape := [1; 1; 2]%nat; data := [398 # 200; 0] |};
              pobj := [256 # 32; 1665283200 # 256000000;
                       1018931200 # 256000000];
              times := [0; 1 - 0; 3 - 2];
              reg_ := 1 / 100 |}).
  - vm_compute. reflexivity.
  - discriminate.
Defined.

Lemma body_small_floor :
  body (small 3 1 (Some (80201 # 20000))) b_hat_small 0 locals0 world0
  = (world1, Ok (Continue, locals1)).
Proof. vm_compute. reflexivity. Qed.

(** C4, on the small problem with the floor set to the objective reached
    after the dictionary update of the iteration 0: the last entry of the
    trace is at the floor and the loop goes on to the iteration 1. *)
Lemma target_check_at_floor :
  exists w' l' v,
    body (small 3 1 (Some (80201 # 20000))) b_hat_small 0 locals0 world0
    = (w', Ok (Continue, l'))
    /\ from_end (pobj l') 1 = Ok v
    /\ v <= 80201 # 20000
    /\ loop (small 3 1 (Some (80201 # 20000))) b_hat_small [0; 1; 2]%nat
         locals0 world0
       = loop (small 3 1 (Some (80201 # 20000))) b_hat_small [1; 2]%nat
           l' w'.
Proof.
  exists world1, locals1, (64160800 # 16000000). split_and!.
  - exact body_small_floor.
  - reflexivity.
  - by vm_compute.
  - vm_compute. reflexivity.
Qed.

(** C4, on the small problem with the floor 5: the objective after the
    dictionary update of the iteration 0 is below it, and the loop is
    left there with the iterations 1 and 2 not run. *)
Lemma target_check_witness :
  exists v1 v2,
    pobj locals1 = pobj locals0 ++ [v1; v2]
    /\ from_end (pobj locals1) 1 = Ok v2
    /\ (v2 < 5 -> Break_stopping_pobj <> Continue)
    /\ (Break_stopping_pobj = Break_stopping_pobj
        <-> ~ v1 - v2 < eps (small 3 1 (Some 5)) /\ v2 < 5)
    /\ (v2 < 5 ->
        loop (small 3 1 (Some 5)) b_hat_small [0; 1; 2]%nat locals0 world0
        = (world1, Ok (Break_stopping_pobj, locals1)))
    /\ (~ v1 - v2 < eps (small 3 1 (Some 5)) -> ~ v2 < 5 ->
        loop (small 3 1 (Some 5)) b_hat_small [0; 1; 2]%nat locals0 world0
        = loop (small 3 1 (Some 5)) b_hat_small [1; 2]%nat locals1 world1).
Proof.
  apply (target_check (small 3 1 (Some 5)) b_hat_small 0%nat [1; 2]%nat
           locals0 world0 world1 Break_stopping_pobj locals1 5).
  - vm_compute. reflexivity.
  - discriminate.
  - reflexivity.
Defined.

(** C7, on the small problem: the dictionary update of the iteration 1
    returns the atoms it was given, the two objectives are equal, and the
    loop is left there with the iterations 2, 3 and 4 not run. *)
Lemma convergence_check_witness :
  exists v1 v2,
    pobj locals2 = pobj locals1 ++ [v1; v2]
    /\ from_end (pobj locals2) 2 = Ok v1
    /\ from_end (pobj locals2) 1 = Ok v2
    /\ (Break_eps = Break_eps <-> v1 - v2 < eps (small 5 1 None))
    /\ (v1 - v2 < eps (small 5 1 None) ->
        loop (small 5 1 None) b_hat_small [1; 2; 3; 4]%nat locals1 world1
        = (world2, Ok (Break_eps, locals2)))
    /\ (~ v1 - v2 < eps (small 5 1 None) ->
        loop (small 5 1 None) b_hat_small [1; 2; 3; 4]%nat locals1 world1
        = match stopping_pobj (small 5 1 None) with
          | Some floor =>
              if Qlt_bool v2 floor
              then (world2, Ok (Break_stopping_pobj, locals2))
              else loop (small 5 1 None) b_hat_small [2; 3; 4]%nat locals2
                     world2
          | None => loop (small 5 1 None) b_hat_small [2; 3; 4]%nat locals2
                      world2
          end).
Proof.
  apply (convergence_check (small 5 1 None) b_hat_small 1%nat [2; 3; 4]%nat
           locals1 world1 world2 Break_eps locals2).
  - vm_compute. reflexivity.
  - discriminate.
Defined.

(** ** The exit on all-zero activations *)

Section AllZero.
Context `{Stages}.

(** C6.  When the sparse-code stage returns activations that are all
    zero, the loop records the warning and stops there: the dictionary
    update of that iteration and the iterations left are skipped, and the
    driver goes on to the refinement and returns the trace of objectives
    and the atoms it had, with the refined activations. *)
Theorem all_zero_exit c b ii iis l w Z0 Zr :
  let reg_' := if (ii =? 1)%nat then reg c else reg_ l in
  update_z_multi (X c) (uv_hat l) reg_' (Z_hat l) (solver_z c)
    (solver_z_kwargs c) = Ok Z0 ->
  count_nonzero Z0 = 0%nat ->
  _support_least_square (X c) (uv_hat l) Z0 = Ok Zr ->
  exists w' t,
    se_bind (loop c b (ii :: iis) l) (fun r => finish c (snd r)) w
    = (w', Ok (pobj l, times l ++ [t], uv_hat l, Zr))
    /\ events w' = events w
         ++ [Call_update_z_multi ii reg_' (solver_z c);
             Warn "UserWarning" all_zero_warning;
             Call_support_least_square].
Proof.
  intros reg_' HZ Hzero Hls.
  cbn [loop].
  unfold body, finish, call, emit, now, se_modify, se_lift, se_ret, se_bind.
  fold reg_'. cbn [events clock]. rewrite HZ, Hzero. cbn. rewrite Hls.
  do 2 eexists. split; [reflexivity|]. cbn. by rewrite <- !app_assoc.
Qed.

End AllZero.

Lemma initialise_small_large n floor :
  initialise (small n 1000 floor) world0
  = ({| events := [Call_prox_uv "separate"; Call_objective 1000 true];
        clock := 0 |},
     Ok (b_hat_small, locals0_large)).
Proof. reflexivity. Qed.

(** The small problem with [reg = 1000]: the activations are all zero in
    the iteration 0. *)
Lemma all_zero_exit_witness :
  exists w' t,
    se_bind (loop (small 1 1000 None) b_hat_small [0%nat] locals0_large)
            (fun r => finish (small 1 1000 None) (snd r)) world0
    = (w', Ok (pobj locals0_large, times locals0_large ++ [t],
               uv_hat locals0_large,
               {| shape := [1; 1; 2]%nat; data := [0; 0] |}))
    /\ events w' = events world0
         ++ [Call_update_z_multi 0 (reg_ locals0_large) "l_bfgs";
             Warn "UserWarning" all_zero_warning;
             Call_support_least_square].
Proof.
  apply (all_zero_exit (small 1 1000 None) b_hat_small 0%nat [] locals0_large
           world0 {| shape := [1; 1; 2]%nat; data := [0; 0] |}).
  - vm_compute. reflexivity.
  - reflexivity.
  - reflexivity.
Defined.

(** ** Runs of the small problem *)

(** Two iterations with [reg = 1]: the warm-up, then the full weight; the
    dictionary update of the iteration 1 brings no decrease and the loop
    is left at the convergence check. *)
Lemma run_small :
  exists w p t uv Z,
    learn_d_z_multi (small 5 1 None) world0 = (w, Ok (p, t, uv, Z))
    /\ events w
       = [Call_prox_uv "separate"; Call_objective 1 true;
          Call_update_z_multi 0 (1 # 100) "l_bfgs"; Call_objective 1 true;
          Call_func_d 0 "alternate"; Call_objective 1 true;
          Call_update_z_multi 1 1 "l_bfgs"; Call_objective 1 true;
          Call_func_d 1 "alternate"; Call_objective 1 true;
          Call_support_least_square]
    /\ Forall2 Qeq p [8; 520401 # 80000; 80201 # 20000; 7 # 2; 7 # 2]
    /\ length t = length p.
Proof.
  do 5 eexists. split_and!.
  - vm_compute. reflexivity.
  - reflexivity.
  - repeat constructor.
  - reflexivity.
Qed.

(** ** The lengths of the two traces *)

(** C2, on the small problem with [reg = 1000] and one iteration: the
    activations are all zero in the iteration 0, and the driver returns
    one objective and two times. *)
Theorem traces_after_all_zero :
  exists w p t uv Z,
    learn_d_z_multi (small 1 1000 None) world0 = (w, Ok (p, t, uv, Z))
    /\ length p = 1%nat
    /\ length t = 2%nat.
Proof.
  do 5 eexists. split_and!.
  - vm_compute. reflexivity.
  - reflexivity.
  - reflexivity.
Qed.

Lemma se_bind_inv {S A B} (m : SE S A) (k : A -> SE S B) s s' b :
  se_bind m k s = (s', Ok b) ->
  exists s1 a, m s = (s1, Ok a) /\ k a s1 = (s', Ok b).
Proof.
  unfold se_bind. destruct (m s) as [s1 [a|e]]; [|done]. by eauto.
Qed.

Lemma se_lift_inv {S A} (r : res A) (s s' : S) a :
  se_lift r s = (s', Ok a) -> r = Ok a /\ s' = s.
Proof. by intros [= <- <-]. Qed.

Lemma se_ret_inv {S A} (x : A) (s s' : S) a :
  se_ret x s = (s', Ok a) -> a = x /\ s' = s.
Proof. by intros [= <- <-]. Qed.

Lemma call_inv {A} (ev : event) (r : res A) w w' a :
  call ev r w = (w', Ok a) ->
  r = Ok a /\ w' = {| events := events w ++ [ev]; clock := clock w |}.
Proof.
  unfold call, emit, se_modify, se_lift, se_bind. by intros [= <- <-].
Qed.

Section Lengths.
Context `{Stages}.

(** What an initialisation that returns has done. *)
Lemma initialise_inv c w w1 b l0 :
  initialise c w = (w1, Ok (b, l0)) ->
  exists n_trials n_chan n_times uv0 nrm v,
    shape (X c) = [n_trials; n_chan; n_times]
    /\ match uv_init c with
       | Some uv => uv0 = uv
       | None => exists st,
           randn (check_random_state (random_state c))
                 [n_atoms c; (Z.of_nat n_chan + n_times_atom c)%Z]
           = Ok (uv0, st)
       end
    /\ prox_uv uv0 (uv_constraint c) n_chan = Ok (uv_hat l0, nrm)
    /\ np_zeros [n_atoms c; Z.of_nat n_trials;
                 (Z.of_nat n_times - n_times_atom c + 1)%Z] = Ok (Z_hat l0)
    /\ compute_X_and_objective_multi (X c) (Z_hat l0) (uv_hat l0) (reg c)
         true (uv_constraint c) = Ok v
    /\ pobj l0 = [v]
    /\ times l0 = [0]
    /\ reg_ l0 = reg c / 100
    /\ events w1 = events w
         ++ [Call_prox_uv (uv_constraint c); Call_objective (reg c) true].
Proof.
  unfold initialise. intros Hrun.
  apply se_bind_inv in Hrun as (w0 & [[n_trials n_chan] n_times] & Hdims & Hrun).
  apply se_lift_inv in Hdims as [Hdims ->].
  destruct (shape (X c)) as [|? [|? [|? [|? ?]]]]; try done.
  injection Hdims as -> -> ->.
  apply se_bind_inv in Hrun as (w0 & [uv0 st] & Hdraw & Hrun).
  apply se_bind_inv in Hrun as (w2 & [uv1 nrm] & Hprox & Hrun).
  apply call_inv in Hprox as [Hprox ->].
  apply se_bind_inv in Hrun as (w3 & [b0 st'] & Hb & Hrun).
  apply se_lift_inv in Hb as [Hb ->].
  apply se_bind_inv in Hrun as (w3 & Zz & HZ & Hrun).
  apply se_lift_inv in HZ as [HZ ->].
  apply se_bind_inv in Hrun as (w3 & v & Hv & Hrun).
  apply call_inv in Hv as [Hv ->].
  apply se_ret_inv in Hrun as [[= -> ->] ->]. cbn in *.
  exists n_trials, n_chan, n_times, uv0, nrm, v.
  assert (w0 = w /\ match uv_init c with
       | Some uv => uv0 = uv
       | None => exists st,
           randn (check_random_state (random_state c))
                 [n_atoms c; (Z.of_nat n_chan + n_times_atom c)%Z]
           = Ok (uv0, st)
       end) as [-> Huv0].
  { destruct (uv_init c) as [uv|].
    - by apply se_ret_inv in Hdraw as [[= -> _] ->].
    - apply se_lift_inv in Hdraw as [Hdraw ->]. by eauto. }
  split_and!; try done. by rewrite <- app_assoc.
Qed.

(** The loop appends two objectives and two times in each iteration it
    completes, and one more time when it leaves on all-zero activations. *)
Lemma loop_trace_lengths c b iis : forall l w w' sg l',
  loop c b iis l w = (w', Ok (sg, l')) ->
  exists k more_p more_t,
    pobj l' = pobj l ++ more_p
    /\ times l' = times l ++ more_t
    /\ length more_p = (2 * k)%nat
    /\ length more_t
       = (2 * k + match sg with Break_all_zero => 1 | _ => 0 end)%nat.
Proof.
  induction iis as [|ii iis IH]; intros l w w' sg l'; cbn [loop].
  - intros [= <- <- <-]. exists 0%nat, [], []. by rewrite !app_nil_r.
  - intros Hrun.
    apply se_bind_inv in Hrun as (w1 & [sg1 l1] & Hbody & Hrun).
    destruct (body_inv _ _ _ _ _ _ _ _ Hbody) as (t1 & _ & _ & [Hz|Hfull]).
    + destruct Hz as (_ & -> & _ & Hp & Ht & _). cbn [fst snd] in Hrun.
      injection Hrun as <- <- <-. exists 0%nat, [], [t1].
      by rewrite app_nil_r.
    + destruct Hfull as (_ & v1 & v2 & t2 & _ & _ & _ & Hp & Ht & Hsg & _).
      cbn [fst snd] in Hrun.
      destruct sg1.
      * destruct (IH _ _ _ _ _ Hrun) as (k & mp & mt & Hp' & Ht' & Hmp & Hmt).
        exists (S k), ([v1; v2] ++ mp), ([t1; t2] ++ mt).
        rewrite Hp', Hp, Ht', Ht, <- !app_assoc.
        split_and!; [done|done|cbn; lia|cbn; lia].
      * unfold exit_of in Hsg.
        destruct (Qlt_bool _ _); [done|].
        destruct (stopping_pobj c); [destruct (Qlt_bool _ _)|]; done.
      * injection Hrun as <- <- <-. by exists 1%nat, [v1; v2], [t1; t2].
      * injection Hrun as <- <- <-. by exists 1%nat, [v1; v2], [t1; t2].
Qed.

(** In every run that returns, the trace of objectives has an odd length,
    the trace of times starts with zero, and the trace of times is as long
    as the trace of objectives, or longer by one: that is when the loop
    was left on all-zero activations. *)
Lemma trace_lengths c w w' p t uv Z :
  learn_d_z_multi c w = (w', Ok (p, t, uv, Z)) ->
  exists k rest,
    length p = (1 + 2 * k)%nat
    /\ t = 0 :: rest
    /\ (length t = length p \/ length t = S (length p)).
Proof.
  unfold learn_d_z_multi. intros Hrun.
  apply se_bind_inv in Hrun as (w1 & [b l0] & Hinit & Hrun).
  apply se_bind_inv in Hrun as (w1' & [] & Hpool & Hrun).
  apply se_lift_inv in Hpool as [_ ->].
  apply se_bind_inv in Hrun as (w2 & [sg l1] & Hloop & Hrun).
  destruct (initialise_inv _ _ _ _ _ Hinit)
    as (? & ? & ? & ? & ? & v & _ & _ & _ & _ & _ & Hp0 & Ht0 & _).
  cbn [fst snd] in *.
  destruct (loop_trace_lengths _ _ _ _ _ _ _ _ Hloop)
    as (k & mp & mt & Hp & Ht & Hmp & Hmt).
  unfold finish in Hrun.
  apply se_bind_inv in Hrun as (w3 & Zr & _ & Hrun).
  apply se_ret_inv in Hrun as [[= -> -> -> ->] _].
  rewrite Hp0 in Hp. rewrite Ht0 in Ht.
  exists k, mt. rewrite Hp, Ht. cbn [app length].
  split_and!; [lia|done|destruct sg; lia].
Qed.

End Lengths.

(** ** The regularisation of the sparse-code stage *)

Section WarmUp.
Context `{Stages}.

(** C5.  In a run of the driver in which the iterations [0 .. k-1] have
    fallen through, the loop goes on with the iteration [k], and that
    iteration applies the sparse-code stage to the data, the atoms and
    the activations it holds with the regularisation [reg / 100] when
    [k] is 0 and [reg] when [k] is 1 or more.  The stage is invoked:
    when it raises, the loop raises its exception; when the iteration
    returns, its activations are the ones the stage returned on these
    arguments, and the call is the first the iteration records. *)
Theorem warm_up_schedule c w w0 b l0 k wk lk m :
  initialise c w = (w0, Ok (b, l0)) ->
  loop c b (seq 0 k) l0 w0 = (wk, Ok (Continue, lk)) ->
  let r := if (k =? 0)%nat then reg c / 100 else reg c in
  let stage := update_z_multi (X c) (uv_hat lk) r (Z_hat lk) (solver_z c)
                 (solver_z_kwargs c) in
  loop c b (seq 0 (k + S m)) l0 w0 = loop c b (k :: seq (S k) m) lk wk
  /\ (forall e, stage = Raise e ->
        exists w', loop c b (k :: seq (S k) m) lk wk = (w', Raise e))
  /\ (forall w' sg l', body c b k lk wk = (w', Ok (sg, l')) ->
        stage = Ok (Z_hat l')
        /\ exists evs,
             events w'
             = events wk ++ Call_update_z_multi k r (solver_z c) :: evs).
Proof.
  intros Hinit Hloop r stage.
  destruct (initialise_inv _ _ _ _ _ Hinit)
    as (? & ? & ? & ? & ? & v & _ & _ & _ & _ & _ & _ & _ & Hreg & _).
  pose proof (loop_reg c b k 0%nat l0 w0 wk lk Hreg Hloop) as Hregk.
  cbn [Nat.add] in Hregk.
  assert (Hr : (if (k =? 1)%nat then reg c else reg_ lk) = r).
  { rewrite Hregk. unfold r, reg_at. by destruct k as [|[|k]]. }
  split_and!.
  - replace (seq 0 (k + S m)) with (seq 0 k ++ k :: seq (S k) m)
      by (by rewrite seq_app).
    by apply loop_app.
  - intros e He.
    destruct (body_stage_raises c b k lk wk e) as [w' Hbody];
      [by rewrite Hr|].
    exists w'. cbn [loop]. unfold se_bind. by rewrite Hbody.
  - intros w' sg l' Hbody.
    destruct (body_inv _ _ _ _ _ _ _ _ Hbody) as (t1 & HZ & _ & Hcases).
    cbv zeta in HZ, Hcases. rewrite Hr in HZ, Hcases.
    split; [exact HZ|].
    destruct Hcases as [(_ & _ & _ & _ & _ & Hev)
                       |(_ & v1 & v2 & t2 & _ & _ & _ & _ & _ & _ & Hev)];
      rewrite Hev; by eexists.
Qed.

End WarmUp.

(** C5, on the small problem: the iteration 0 has fallen through, and the
    iteration 1 applies the sparse-code stage with the full weight. *)
Lemma warm_up_schedule_witness :
  let c := small 5 1 None in
  let w0 := {| events := [Call_prox_uv "separate"; Call_objective 1 true];
               clock := 0 |} in
  let wk := {| events := [Call_prox_uv "separate"; Call_objective 1 true]
                         ++ events world1;
               clock := 4 |} in
  let r := if (1 =? 0)%nat then reg c / 100 else reg c in
  let stage := update_z_multi (X c) (uv_hat locals1) r (Z_hat locals1)
                 (solver_z c) (solver_z_kwargs c) in
  loop c b_hat_small (seq 0 (1 + 4)) locals0 w0
  = loop c b_hat_small (1%nat :: seq 2 3) locals1 wk
  /\ (forall e, stage = Raise e ->
        exists w', loop c b_hat_small (1%nat :: seq 2 3) locals1 wk
                   = (w', Raise e))
  /\ (forall w' sg l', body c b_hat_small 1 locals1 wk = (w', Ok (sg, l')) ->
        stage = Ok (Z_hat l')
        /\ exists evs,
             events w'
             = events wk ++ Call_update_z_multi 1 r (solver_z c) :: evs).
Proof.
  intros c w0 wk.
  apply (warm_up_schedule c world0 w0 b_hat_small locals0 1%nat wk locals1
           3%nat).
  - vm_compute. reflexivity.
  - vm_compute. reflexivity.
Defined.

(** ** Errors of configuration *)

Lemma se_bind_raise {S A B} (m : SE S A) (k : A -> SE S B) s s' e :
  m s = (s', Raise e) -> se_bind m k s = (s', Raise e).
Proof. unfold se_bind. by intros ->. Qed.

Section Configuration.
Context `{Stages}.

Lemma initialise_fails c w :
  length (shape (X c)) <> 3%nat
  \/ (forall uv n, is_Ok (prox_uv uv (uv_constraint c) n) = false)
  \/ (n_atoms c < 0)%Z
  \/ (exists a b d, shape (X c) = [a; b; d]
                    /\ (Z.of_nat d - n_times_atom c + 1 < 0)%Z) ->
  exists w' e,
    initialise c w = (w', Raise e)
    /\ (events w' = events w
        \/ events w' = events w ++ [Call_prox_uv (uv_constraint c)]).
Proof.
  intros Hbad. unfold initialise.
  destruct (shape (X c)) as [|n_trials [|n_chan [|n_times [|? ?]]]] eqn:Hshape;
    try (do 2 eexists; split; [reflexivity|by left]).
  unfold se_bind at 1. cbn [se_lift].
  set (rng := check_random_state (random_state c)).
  assert (Hzeros : forallb (Z.leb 0)
            [n_atoms c; Z.of_nat n_trials;
             (Z.of_nat n_times - n_times_atom c + 1)%Z] = true
          -> forall uv n, is_Ok (prox_uv uv (uv_constraint c) n) = false).
  { intros Hdims uv n.
    destruct Hbad as [Hlen|[Hprox|[Hatoms|(a & b & d & [= -> -> ->] & Hvalid)]]].
    - done.
    - apply Hprox.
    - cbn in Hdims. apply andb_prop in Hdims as [Hdims _].
      apply Z.leb_le in Hdims. lia.
    - cbn in Hdims. apply andb_prop in Hdims as [_ Hdims].
      apply andb_prop in Hdims as [_ Hdims].
      apply andb_prop in Hdims as [Hdims _].
      apply Z.leb_le in Hdims. lia. }
  assert (Hrest : forall uv0 st w0, events w0 = events w ->
    exists w' e,
      se_bind (call (Call_prox_uv (uv_constraint c))
                    (prox_uv uv0 (uv_constraint c) n_chan))
        (fun projected =>
           se_bind (se_lift (randn st
                      [(n_atoms c * (Z.of_nat n_chan + n_times_atom c))%Z]))
             (fun drawn =>
                se_bind (se_lift (np_zeros
                           [n_atoms c; Z.of_nat n_trials;
                            (Z.of_nat n_times - n_times_atom c + 1)%Z]))
                  (fun Z_hat0 =>
                     se_bind (monitor c Z_hat0 (fst projected))
                       (fun v =>
                          se_ret (fst drawn,
                                  {| uv_hat := fst projected; Z_hat := Z_hat0;
                                     pobj := [] ++ [v]; times := [] ++ [0];
                                     reg_ := reg c / 100 |}))))) w0
      = (w', Raise e)
      /\ (events w' = events w
          \/ events w' = events w ++ [Call_prox_uv (uv_constraint c)])).
  { intros uv0 st w0 Hw0.
    unfold call, emit, se_modify, se_lift, se_ret, se_bind. cbn [events clock].
    destruct (prox_uv uv0 _ n_chan) as [projected|e] eqn:Hprox;
      [|do 2 eexists; split; [reflexivity|right; cbn; by rewrite Hw0]].
    destruct (randn st _) as [drawn|e];
      [|do 2 eexists; split; [reflexivity|right; cbn; by rewrite Hw0]].
    unfold np_zeros.
    destruct (forallb _ _) eqn:Hdims;
      [|do 2 eexists; split; [reflexivity|right; cbn; by rewrite Hw0]].
    specialize (Hzeros eq_refl uv0 n_chan). by rewrite Hprox in Hzeros. }
  destruct (uv_init c) as [uv|].
  - cbn [se_ret]. by apply Hrest.
  - destruct (randn rng _) as [[uv0 st]|e].
    + by apply Hrest.
    + do 2 eexists. split; [reflexivity|by left].
Qed.

(** C3, as the code has it.  A data array that is not three-dimensional,
    a negative number of atoms, a negative valid length, or a constraint
    mode that the projector rejects makes the driver raise before the
    loop: the only call it has made by then, if any, is the projection of
    the initial atoms. *)
Theorem configuration_errors c w :
  length (shape (X c)) <> 3%nat
  \/ (forall uv n, is_Ok (prox_uv uv (uv_constraint c) n) = false)
  \/ (n_atoms c < 0)%Z
  \/ (exists a b d, shape (X c) = [a; b; d]
                    /\ (Z.of_nat d - n_times_atom c + 1 < 0)%Z) ->
  exists w' e,
    learn_d_z_multi c w = (w', Raise e)
    /\ (events w' = events w
        \/ events w' = events w ++ [Call_prox_uv (uv_constraint c)]).
Proof.
  intros Hbad. destruct (initialise_fails c w Hbad) as (w' & e & Hinit & Hev).
  exists w', e. split; [|exact Hev].
  unfold learn_d_z_multi. by apply se_bind_raise.
Qed.

End Configuration.

(** C3, on the small problem with a negative regularisation.  With no
    iteration to run, unknown solver names are never looked at and the
    driver returns; with one iteration and an unknown name for the
    dictionary solver, the driver raises only once the sparse-code stage
    has returned and its objective has been evaluated. *)
Lemma solver_names_not_checked_before_loop :
  (exists w r,
     learn_d_z_multi (small_unchecked 0 "newton" "newton") world0 = (w, Ok r))
  /\ (exists w e,
        learn_d_z_multi (small_unchecked 1 "l_bfgs" "newton") world0
        = (w, Raise e)
        /\ events w = [Call_prox_uv "separate"; Call_objective (-1) true;
                       Call_update_z_multi 0 (-1 / 100) "l_bfgs";
                       Call_objective (-1) true;
                       Call_func_d 0 "newton"]).
Proof.
  split.
  - do 2 eexists. vm_compute. reflexivity.
  - do 2 eexists. split; vm_compute; reflexivity.
Qed.

Lemma configuration_errors_witness :
  exists w' e,
    learn_d_z_multi (small_mode "sphere") world0 = (w', Raise e)
    /\ (events w' = events world0
        \/ events w' = events world0 ++ [Call_prox_uv "sphere"]).
Proof.
  apply (configuration_errors (small_mode "sphere") world0).
  right. left. intros uv n. reflexivity.
Defined.

(** ** No iteration *)

Section NoIteration.
Context `{Stages}.

(** C9.  With [n_iter = 0] and a number of workers that joblib accepts,
    once the initialisation has gone through and the refinement returns,
    the driver returns: the trace of objectives has the initial objective
    as its one entry, and the activations are the refinement of the
    all-zero array of shape (atoms, trials, valid length). *)
Theorem zero_iterations c w w1 b l0 Zr :
  n_iter c = 0%Z ->
  n_jobs c <> 0%Z ->
  initialise c w = (w1, Ok (b, l0)) ->
  _support_least_square (X c) (uv_hat l0) (Z_hat l0) = Ok Zr ->
  exists w2 v n_trials n_chan n_times,
    learn_d_z_multi c w = (w2, Ok ([v], [0], uv_hat l0, Zr))
    /\ shape (X c) = [n_trials; n_chan; n_times]
    /\ shape (Z_hat l0)
       = [Z.to_nat (n_atoms c); n_trials;
          Z.to_nat (Z.of_nat n_times - n_times_atom c + 1)]
    /\ data (Z_hat l0) = repeat 0 (size_of (shape (Z_hat l0))).
Proof.
  intros Hn Hjobs Hinit Hls.
  destruct (initialise_inv _ _ _ _ _ Hinit)
    as (n_trials & n_chan & n_times & uv0 & nrm & v
        & Hshape & _ & _ & HZ & _ & Hp & Ht & _).
  unfold learn_d_z_multi, se_bind. rewrite Hinit, Hn.
  unfold Parallel. apply Z.eqb_neq in Hjobs. rewrite Hjobs. cbn [se_lift].
  change (Z.to_nat 0) with 0%nat. cbn [seq loop se_ret fst snd].
  unfold finish, call, emit, se_modify, se_lift, se_ret, se_bind.
  rewrite Hls, Hp, Ht.
  eexists _, v, n_trials, n_chan, n_times. split; [reflexivity|].
  split; [exact Hshape|].
  unfold np_zeros in HZ. destruct (forallb _ _); [|done].
  injection HZ as <-. cbn [shape data map]. by rewrite Nat2Z.id.
Qed.

End NoIteration.

Lemma zero_iterations_witness :
  exists w2 v n_trials n_chan n_times,
    learn_d_z_multi (small 0 1 None) world0
    = (w2, Ok ([v], [0], uv_hat locals0, Z_hat locals0))
    /\ shape (X (small 0 1 None)) = [n_trials; n_chan; n_times]
    /\ shape (Z_hat locals0)
       = [Z.to_nat (n_atoms (small 0 1 None)); n_trials;
          Z.to_nat (Z.of_nat n_times - n_times_atom (small 0 1 None) + 1)]
    /\ data (Z_hat locals0) = repeat 0 (size_of (shape (Z_hat locals0))).
Proof.
  apply (zero_iterations (small 0 1 None) world0
           {| events := [Call_prox_uv "separate"; Call_objective 1 true];
              clock := 0 |}
           b_hat_small locals0 (Z_hat locals0)).
  - reflexivity.
  - discriminate.
  - reflexivity.
  - reflexivity.
Defined.

(** ** Arithmetic on arrays *)

Lemma size_of_app (s1 s2 : list nat) :
  size_of (s1 ++ s2) = (size_of s1 * size_of s2)%nat.
Proof.
  unfold size_of.
  induction s1 as [|d s1 IH]; cbn [app fold_right]; [lia|].
  rewrite IH. lia.
Qed.

Lemma size_of_rev (s : list nat) : size_of (rev s) = size_of s.
Proof.
  induction s as [|d s IH]; [done|]. cbn [rev]. rewrite size_of_app, IH.
  unfold size_of. cbn [fold_right]. lia.
Qed.

Lemma broadcast_rev_same (s : list nat) : broadcast_rev s s = Some s.
Proof.
  induction s as [|d s IH]; [done|]. cbn. by rewrite IH, Nat.eqb_refl.
Qed.

(** On the result of an operation on arrays of one shape, a position is
    read back at itself in both operands. *)
Lemma ravel_unravel (s : list nat) : forall i,
  (i < size_of s)%nat -> ravel_rev s (unravel_rev s i) = i.
Proof.
  induction s as [|d s IH]; intros i Hi;
    cbn [ravel_rev unravel_rev]; [cbn in Hi; lia|].
  change (size_of (d :: s)) with (d * size_of s)%nat in Hi.
  assert (Hd : d <> 0%nat) by (intros ->; lia).
  rewrite IH by (apply Nat.Div0.div_lt_upper_bound; lia).
  destruct (d =? 1)%nat eqn:H1.
  - apply Nat.eqb_eq in H1 as ->. rewrite Nat.div_1_r. lia.
  - pose proof (Nat.div_mod_eq i d). lia.
Qed.

Lemma nth_map_seq {A} (h : nat -> A) (n i : nat) (d : A) :
  (i < n)%nat -> nth i (map h (seq 0 n)) d = h i.
Proof.
  intros Hi. rewrite (nth_indep _ d (h 0%nat)) by (by rewrite length_map, length_seq).
  change (h 0%nat) with ((fun j => h j) 0%nat) at 1.
  rewrite map_nth. by rewrite seq_nth.
Qed.

Lemma map_nth_seq (l : list Q) :
  map (fun i => nth i l 0) (seq 0 (length l)) = l.
Proof.
  apply nth_ext with (d := 0) (d' := 0).
  - by rewrite length_map, length_seq.
  - intros i Hi. rewrite length_map, length_seq in Hi.
    exact (nth_map_seq (fun j => nth j l 0) _ _ _ Hi).
Qed.

Lemma broadcast_op_same f A B :
  shape B = shape A ->
  broadcast_op f A B
  = Ok {| shape := shape A;
          data := map (fun i => f (nth i (data A) 0) (nth i (data B) 0))
                      (seq 0 (size_of (shape A))) |}.
Proof.
  intros HB. unfold broadcast_op. rewrite HB, broadcast_rev_same.
  rewrite rev_involutive, size_of_rev. do 2 f_equal.
  apply map_ext_in. intros i Hi. apply in_seq in Hi. cbn.
  unfold get_rev. rewrite HB.
  by rewrite ravel_unravel by (rewrite size_of_rev; lia).
Qed.

Lemma qsum_ext {A} (f g : A -> Q) (l : list A) :
  (forall x, In x l -> f x == g x) -> qsum (map f l) == qsum (map g l).
Proof.
  induction l as [|a l IH]; intros Hfg; cbn; [reflexivity|].
  rewrite (Hfg a) by (by left). rewrite IH; [reflexivity|].
  intros x Hx. apply Hfg. by right.
Qed.

Lemma qsum_zero (l : list Q) : Forall (fun x => x == 0) l -> qsum l == 0.
Proof.
  induction 1 as [|x l Hx _ IH]; cbn; [reflexivity|]. rewrite Hx, IH. ring.
Qed.

Lemma nth_zero (l : list Q) (i : nat) :
  Forall (fun x => x == 0) l -> nth i l 0 == 0.
Proof.
  intros Hl. destruct (Nat.lt_ge_cases i (length l)) as [Hi|Hi].
  - rewrite Forall_forall in Hl. apply Hl, list_elem_of_In. by apply nth_In.
  - by rewrite nth_overflow.
Qed.

Lemma np_imul_zero Z F Z' :
  np_imul Z F = Ok Z' -> all_zero Z -> all_zero Z' /\ shape Z' = shape Z.
Proof.
  unfold np_imul, np_mul, broadcast_op. intros Hmul Hzero.
  destruct (broadcast_rev _ _) as [r|]; [|done]. cbn in Hmul.
  destruct (decide _) as [Hshape|]; [|done]. injection Hmul as <-.
  split; [|exact Hshape].
  unfold all_zero. cbn [data]. apply Forall_forall. intros x Hx.
  apply list_elem_of_In, in_map_iff in Hx as (i & <- & _). cbn.
  unfold get_rev at 1. rewrite (nth_zero _ _ Hzero). ring.
Qed.

(** The objective of a zero reconstruction and zero activations is half
    the sum of the squares of the data. *)
Lemma objective_zero X Xh Zs reg :
  wf_array X -> shape Xh = shape X -> all_zero Xh -> all_zero Zs ->
  exists v,
    objective X Xh Zs reg = Ok v
    /\ v == (1 # 2) * qsum (map (fun x => x * x) (data X)).
Proof.
  intros Hwf Hshape HXh HZs. unfold objective, np_sub, np_mul.
  rewrite (broadcast_op_same _ X Xh Hshape).
  unfold mbind, res_mbind, mret, res_ret. cbn [res_bind].
  rewrite broadcast_op_same by done. cbn [res_bind shape data].
  eexists. split; [reflexivity|].
  unfold np_sum. cbn [data]. rewrite (qsum_zero _ HZs).
  set (n := size_of (shape X)).
  rewrite (qsum_ext _ (fun i => nth i (data X) 0 * nth i (data X) 0)).
  - rewrite <- (map_map (fun i => nth i (data X) 0) (fun x => x * x)).
    unfold n. rewrite <- Hwf, map_nth_seq. ring.
  - intros i Hi. apply in_seq in Hi.
    rewrite nth_map_seq by lia. rewrite (nth_zero _ i HXh). ring.
Qed.

(** ** The first entry of the trace *)

Section FirstEntry.
Context `{Stages}.
Hypothesis stages_ok : contracts.

Lemma evaluate_zero X Zz uv reg cm v n_trials n_chan n_times k ka ta tv :
  wf_array X ->
  shape X = [n_trials; n_chan; n_times] ->
  shape Zz = [k; n_trials; tv] ->
  all_zero Zz ->
  shape uv = [ka; (n_chan + ta)%nat] ->
  (tv + ta - 1)%nat = n_times ->
  compute_X_and_objective_multi X Zz uv reg true cm = Ok v ->
  v == (1 # 2) * qsum (map (fun x => x * x) (data X)).
Proof.
  intros Hwf HX HZ Hzero Huv Htimes. unfold compute_X_and_objective_multi.
  rewrite HX. cbn [lookup list_lookup].
  unfold mbind, res_mbind, mret, res_ret. cbn [res_bind].
  destruct (prox_uv uv cm n_chan) as [[uv' nrm]|e] eqn:Hprox; cbn [res_bind]; [|done].
  destruct (expand_axes nrm) as [factor|e]; cbn [res_bind]; [|done].
  cbn [res_bind].
  destruct (np_imul Zz factor) as [Z'|e] eqn:Himul; cbn [res_bind]; [|done].
  cbn [res_bind].
  destruct (np_imul_zero _ _ _ Himul Hzero) as [Hzero' HZ'].
  destruct (_get_D uv' n_chan) as [D|e] eqn:HD; cbn [res_bind]; [|done].
  cbn [res_bind].
  destruct (construct_X_multi Z' D) as [Xh|e] eqn:HXh; cbn [res_bind]; [|done].
  cbn [res_bind].
  assert (Huv' : shape uv' = [ka; (n_chan + ta)%nat])
    by (by rewrite (prox_uv_shape stages_ok _ _ _ _ _ Hprox)).
  pose proof (_get_D_shape stages_ok _ _ _ _ _ HD Huv' ltac:(lia)) as HDs.
  rewrite HZ in HZ'.
  pose proof (construct_X_multi_shape stages_ok _ _ _ _ _ _ _ _ _ HXh HZ' HDs)
    as HXhs.
  replace (n_chan + ta - n_chan)%nat with ta in HXhs by lia.
  rewrite Htimes, <- HX in HXhs.
  destruct (objective_zero X Xh Z' reg Hwf HXhs
              (construct_X_multi_zero stages_ok _ _ _ HXh Hzero') Hzero')
    as (v' & -> & Hv').
  by intros [= <-].
Qed.


End FirstEntry.

(** *** The collaborators built above keep to the contracts *)

Lemma Forall_flat_map_all {A B} (P : B -> Prop) (f : A -> list B) (l : list A) :
  (forall x, Forall P (f x)) -> Forall P (flat_map f l).
Proof.
  intros Hf. induction l as [|a l IH]; cbn; [constructor|].
  apply Forall_app. by split.
Qed.

Lemma Forall_map_all {A B} (P : B -> Prop) (f : A -> B) (l : list A) :
  (forall x, P (f x)) -> Forall P (map f l).
Proof.
  intros Hf. induction l as [|a l IH]; cbn; constructor; [apply Hf|exact IH].
Qed.

Lemma qsum_map_zero {A} (f : A -> Q) (l : list A) :
  (forall x, f x == 0) -> qsum (map f l) == 0.
Proof. intros Hf. apply qsum_zero. by apply Forall_map_all. Qed.

Lemma model_contracts : @contracts model_stages.
Proof.
  split.
  - intros uv cm n uv' nrm. cbn. unfold prox_uv_model.
    destruct (known_constraint cm); [|done].
    destruct (shape uv) as [|k [|m [|? ?]]]; try done.
    by intros [= <- _].
  - intros uv n k m D. cbn. unfold _get_D_model.
    intros HD Huv Hn. rewrite Huv in HD. injection HD as <-. cbn.
    by rewrite Nat.min_l.
  - intros Z D Xh k n tv k' ch ta. cbn. unfold construct_X_multi_model.
    intros HXh HZ HD. rewrite HZ, HD in HXh.
    destruct (_ =? _)%nat; [done|]. by injection HXh as <-.
  - intros Z D Xh. cbn. unfold construct_X_multi_model.
    destruct (shape Z) as [|? [|n [|tv [|? ?]]]]; try done.
    destruct (shape D) as [|k [|ch [|ta [|? ?]]]]; try done.
    destruct (_ =? _)%nat; [done|]. intros [= <-] Hzero.
    unfold all_zero. cbn [data].
    apply Forall_flat_map_all. intros i.
    apply Forall_flat_map_all. intros c.
    apply Forall_map_all. intros t.
    apply qsum_map_zero. intros a.
    apply qsum_map_zero. intros tau.
    destruct (_ && _); [|reflexivity].
    unfold at3 at 1. rewrite (nth_zero _ _ Hzero). ring.
  - intros st dims A st'. cbn. unfold randn_model.
    destruct (forallb _ _); [|done]. by intros [= <- _].
Qed.



(** ** The arrays of the caller *)

Section Keeps.
Context {A B : Type} (σ0 : store).

Lemma keeps_ret (a : A) (Q : A -> Prop) : Q a -> keeps σ0 (se_ret a) Q.
Proof. intros HQ σ Hσ. split; [done|]. by intros ? [= <-]. Qed.

Lemma keeps_lift (r : res A) (Q : A -> Prop) :
  (forall a, r = Ok a -> Q a) -> keeps σ0 (se_lift r) Q.
Proof. intros HQ σ Hσ. by split. Qed.

Lemma keeps_bind (m : SE store A) (k : A -> SE store B)
    (Q : A -> Prop) (R : B -> Prop) :
  keeps σ0 m Q -> (forall a, Q a -> keeps σ0 (k a) R) ->
  keeps σ0 (se_bind m k) R.
Proof.
  intros Hm Hk σ Hσ. destruct (Hm σ Hσ) as [Hσ1 HQ]. unfold se_bind.
  destruct (m σ) as [σ1 [a|e]]; cbn in *.
  - exact (Hk a (HQ a eq_refl) σ1 Hσ1).
  - split; [done|]. intros ? [=].
Qed.

End Keeps.

Lemma keeps_load σ0 l : keeps σ0 (load l) (fun _ => True).
Proof.
  intros σ Hσ. unfold load. by destruct (σ !! l); split.
Qed.

(** A new array is bound to a reference the caller does not hold. *)
Lemma keeps_alloc σ0 a : keeps σ0 (alloc a) (fun l => σ0 !! l = None).
Proof.
  intros σ Hσ. unfold alloc. cbn.
  assert (Hfresh : σ0 !! fresh (dom σ) = None).
  { destruct (σ0 !! fresh (dom σ)) eqn:Hl; [|done].
    exfalso. apply (is_fresh (dom σ)). apply elem_of_dom.
    rewrite (Hσ _ (mk_is_Some _ _ Hl)). by rewrite Hl. }
  split; [|by intros ? [= <-]].
  intros l Hl. rewrite lookup_insert_ne; [by apply Hσ|].
  intros <-. rewrite Hfresh in Hl. by destruct Hl.
Qed.

Lemma keeps_np_copy σ0 l : keeps σ0 (np_copy l) (fun l' => σ0 !! l' = None).
Proof.
  unfold np_copy. eapply keeps_bind; [apply keeps_load|].
  intros a _. apply keeps_alloc.
Qed.

(** Writing to a reference the caller does not hold. *)
Lemma keeps_overwrite σ0 l a :
  σ0 !! l = None -> keeps σ0 (overwrite l a) (fun _ => True).
Proof.
  intros Hl σ Hσ. unfold overwrite. cbn. split; [|done].
  intros l' Hl'. rewrite lookup_insert_ne; [by apply Hσ|].
  intros <-. rewrite Hl in Hl'. by destruct Hl'.
Qed.

Section CallerArrays.
Context `{Stages}.
Variable prox_uv_inplace : nat -> string -> nat -> SE store (nat * nat).

(** [prox_uv] writes to the array it is given and to new arrays only. *)
Hypothesis prox_uv_inplace_frame : forall l cm n σ l',
  l' <> l -> is_Some (σ !! l') ->
  fst (prox_uv_inplace l cm n σ) !! l' = σ !! l'.

Lemma keeps_prox_uv_inplace σ0 l cm n :
  σ0 !! l = None -> keeps σ0 (prox_uv_inplace l cm n) (fun _ => True).
Proof.
  intros Hl σ Hσ. split; [|done].
  intros l' Hl'. rewrite prox_uv_inplace_frame.
  - by apply Hσ.
  - intros ->. rewrite Hl in Hl'. by destruct Hl'.
  - by rewrite (Hσ _ Hl').
Qed.

(** C8.  A call of the evaluator with [feasible_evaluation] true leaves
    every array that exists before the call as it is, the atoms and the
    activations of the caller among them: what it projects and rescales
    are copies. *)
Theorem evaluator_keeps_arrays X Z_hat uv_hat reg cm (σ : store) l :
  is_Some (σ !! l) ->
  fst (compute_X_and_objective_multi_ref prox_uv_inplace X Z_hat uv_hat reg
         true cm σ) !! l
  = σ !! l.
Proof.
  intros Hl.
  assert (Hkeeps : keeps σ
            (compute_X_and_objective_multi_ref prox_uv_inplace X Z_hat uv_hat
               reg true cm) (fun _ => True)).
  { unfold compute_X_and_objective_multi_ref.
    eapply keeps_bind; [apply keeps_load|]. intros x _.
    eapply keeps_bind; [by apply keeps_lift with (Q := fun _ => True)|].
    intros n_chan _.
    eapply keeps_bind with (Q := fun _ => True).
    - eapply keeps_bind; [apply keeps_np_copy|]. intros lZ HlZ.
      eapply keeps_bind; [apply keeps_np_copy|]. intros luv Hluv.
      eapply keeps_bind; [by apply keeps_prox_uv_inplace|].
      intros [luv' lnorm] _.
      eapply keeps_bind; [apply keeps_load|]. intros nrm _.
      eapply keeps_bind; [by apply keeps_lift with (Q := fun _ => True)|].
      intros factor _.
      eapply keeps_bind; [apply keeps_load|]. intros z _.
      eapply keeps_bind; [by apply keeps_lift with (Q := fun _ => True)|].
      intros z' _.
      eapply keeps_bind; [by apply keeps_overwrite|]. intros _ _.
      by apply keeps_ret.
    - intros [lZ luv] _.
      eapply keeps_bind; [apply keeps_load|]. intros uv _.
      eapply keeps_bind; [by apply keeps_lift with (Q := fun _ => True)|].
      intros d_hat _.
      eapply keeps_bind; [apply keeps_load|]. intros z _.
      eapply keeps_bind; [by apply keeps_lift with (Q := fun _ => True)|].
      intros X_hat _. by apply keeps_lift. }
  destruct (Hkeeps σ) as [Hagree _]; [by intros ? ?|].
  by apply Hagree.
Qed.

End CallerArrays.

Lemma prox_uv_model_inplace_frame l cm n (σ : store) l' :
  l' <> l -> is_Some (σ !! l') ->
  fst (prox_uv_model_inplace l cm n σ) !! l' = σ !! l'.
Proof.
  intros Hne Hl'. unfold prox_uv_model_inplace, load, alloc, overwrite,
    se_lift, se_ret, se_bind.
  destruct (σ !! l) as [uv|] eqn:Hl; [|done].
  destruct (prox_uv_model uv cm n) as [[uv' nrm]|e]; [|done]. cbn.
  rewrite lookup_insert_ne.
  - by rewrite lookup_insert_ne.
  - intros <-. apply (is_fresh (dom (<[l:=uv']> σ))).
    apply elem_of_dom. rewrite lookup_insert_ne by done. exact Hl'.
Qed.

(** The projector does write to the array it is given. *)
Lemma prox_uv_model_inplace_writes :
  fst (prox_uv_model_inplace 2 "separate" 1 store_small) !! 2%nat
  <> store_small !! 2%nat.
Proof. vm_compute. discriminate. Qed.

Lemma evaluator_keeps_arrays_witness :
  fst (compute_X_and_objective_multi_ref prox_uv_model_inplace 0 1 2 1 true
         "separate" store_small) !! 2%nat
  = store_small !! 2%nat.
Proof.
  apply (evaluator_keeps_arrays prox_uv_model_inplace
           prox_uv_model_inplace_frame).
  eexists. vm_compute. reflexivity.
Defined.

(** ** The evaluator by reference computes the evaluator on values *)

Lemma se_bind_ok {S A B} (m : SE S A) (k : A -> SE S B) s s1 a :
  m s = (s1, Ok a) -> se_bind m k s = k a s1.
Proof. unfold se_bind. by intros ->. Qed.

Lemma load_ok (σ : store) l a : σ !! l = Some a -> load l σ = (σ, Ok a).
Proof. unfold load. by intros ->. Qed.

Lemma np_copy_ok (σ : store) l a :
  σ !! l = Some a ->
  np_copy l σ = (<[fresh (dom σ) := a]> σ, Ok (fresh (dom σ))).
Proof.
  intros Hl. unfold np_copy. by rewrite (se_bind_ok _ _ _ _ _ (load_ok _ _ _ Hl)).
Qed.

Lemma lookup_fresh_ne (σ : store) l a b :
  σ !! l = Some a -> <[fresh (dom σ) := b]> σ !! l = Some a.
Proof.
  intros Hl. rewrite lookup_insert_ne; [done|].
  intros Heq. apply (is_fresh (dom σ)). rewrite Heq.
  apply elem_of_dom. by rewrite Hl.
Qed.

Section Refinement.
Context `{Stages}.
Variable prox_uv_inplace : nat -> string -> nat -> SE store (nat * nat).

Hypothesis prox_uv_inplace_frame : forall l cm n σ l',
  l' <> l -> is_Some (σ !! l') ->
  fst (prox_uv_inplace l cm n σ) !! l' = σ !! l'.

(** On a reference to [a], [prox_uv_inplace] does what [prox_uv] does on
    [a]; the atoms it returns are the array it was given or a new one. *)
Hypothesis prox_uv_inplace_spec : forall l cm n (σ : store) a,
  σ !! l = Some a ->
  match prox_uv a cm n with
  | Ok (u, nrm) =>
      exists σ' lu ln,
        prox_uv_inplace l cm n σ = (σ', Ok (lu, ln))
        /\ σ' !! lu = Some u /\ σ' !! ln = Some nrm
        /\ (lu = l \/ σ !! lu = None)
  | Raise e => exists σ', prox_uv_inplace l cm n σ = (σ', Raise e)
  end.

Lemma evaluator_ref_value lX lZ luv reg fe cm (σ : store) x z u :
  σ !! lX = Some x -> σ !! lZ = Some z -> σ !! luv = Some u ->
  snd (compute_X_and_objective_multi_ref prox_uv_inplace lX lZ luv reg fe cm σ)
  = compute_X_and_objective_multi x z u reg fe cm.
Proof.
  intros HX HZ Huv.
  unfold compute_X_and_objective_multi_ref, compute_X_and_objective_multi.
  unfold mbind, res_mbind, mret, res_ret.
  rewrite (se_bind_ok _ _ _ _ _ (load_ok _ _ _ HX)).
  destruct (shape x !! 1%nat) as [n_chan|]; [|done].
  unfold se_lift at 1, se_bind at 1. cbn [res_bind].
  destruct fe.
  - set (l1 := fresh (dom σ)). set (σ1 := <[l1 := z]> σ).
    assert (Huv1 : σ1 !! luv = Some u) by (by apply lookup_fresh_ne).
    set (l2 := fresh (dom σ1)). set (σ2 := <[l2 := u]> σ1).
    assert (Hl12 : l1 <> l2).
    { intros Heq. apply (is_fresh (dom σ1)). fold l2. rewrite <- Heq.
      apply elem_of_dom. unfold σ1. by rewrite lookup_insert_eq. }
    assert (HZ2 : σ2 !! l1 = Some z).
    { unfold σ2. rewrite lookup_insert_ne by done.
      unfold σ1. by rewrite lookup_insert_eq. }
    assert (Hu2 : σ2 !! l2 = Some u) by (unfold σ2; by rewrite lookup_insert_eq).
    unfold se_bind at 1. unfold se_bind at 1.
    rewrite (np_copy_ok _ _ _ HZ). fold l1 σ1.
    unfold se_bind at 1. rewrite (np_copy_ok _ _ _ Huv1). fold l2 σ2.
    pose proof (prox_uv_inplace_spec l2 cm n_chan σ2 u Hu2) as Hspec.
    pose proof (prox_uv_inplace_frame l2 cm n_chan σ2 l1 Hl12
                  (mk_is_Some _ _ HZ2)) as Hframe.
    destruct (prox_uv u cm n_chan) as [[u' nrm]|e]; cbn [res_bind].
    + destruct Hspec as (σ3 & lu & ln & Hrun & Hlu & Hln & Hwhere).
      rewrite Hrun in Hframe. cbn [fst] in Hframe.
      unfold se_bind at 1. rewrite Hrun.
      rewrite (se_bind_ok _ _ _ _ _ (load_ok _ _ _ Hln)).
      destruct (expand_axes nrm) as [factor|e]; [|done].
      unfold se_lift at 1, se_bind at 1. cbn [res_bind].
      assert (HZ3 : σ3 !! l1 = Some z) by (by rewrite Hframe).
      rewrite (se_bind_ok _ _ _ _ _ (load_ok _ _ _ HZ3)).
      destruct (np_imul z factor) as [z'|e]; [|done].
      unfold se_lift at 1, se_bind at 1. cbn [res_bind].
      unfold overwrite at 1, se_bind at 1, se_ret at 1.
      assert (Hlu4 : <[l1 := z']> σ3 !! lu = Some u').
      { rewrite lookup_insert_ne; [done|]. intros <-.
        destruct Hwhere as [?|Hnone]; [done|]. by rewrite HZ2 in Hnone. }
      rewrite (se_bind_ok _ _ _ _ _ (load_ok _ _ _ Hlu4)).
      destruct (_get_D u' n_chan) as [D|e]; [|done].
      unfold se_lift at 1, se_bind at 1. cbn [res_bind].
      assert (HZ4 : <[l1 := z']> σ3 !! l1 = Some z')
        by (by rewrite lookup_insert_eq).
      rewrite (se_bind_ok _ _ _ _ _ (load_ok _ _ _ HZ4)).
      destruct (construct_X_multi z' D) as [Xh|e]; [|done].
      done.
    + destruct Hspec as (σ3 & Hrun). unfold se_bind at 1. by rewrite Hrun.
  - unfold se_ret at 1, se_bind at 1. cbn [res_bind].
    rewrite (se_bind_ok _ _ _ _ _ (load_ok _ _ _ Huv)).
    destruct (_get_D u n_chan) as [D|e]; cbn [res_bind]; [|reflexivity].
    unfold se_lift at 1, se_bind at 1.
    rewrite (se_bind_ok _ _ _ _ _ (load_ok _ _ _ HZ)).
    destruct (construct_X_multi z D) as [Xh|e]; reflexivity.
Qed.

End Refinement.

Lemma prox_uv_model_inplace_spec l cm n (σ : store) a :
  σ !! l = Some a ->
  match prox_uv_model a cm n with
  | Ok (u, nrm) =>
      exists σ' lu ln,
        prox_uv_model_inplace l cm n σ = (σ', Ok (lu, ln))
        /\ σ' !! lu = Some u /\ σ' !! ln = Some nrm
        /\ (lu = l \/ σ !! lu = None)
  | Raise e => exists σ', prox_uv_model_inplace l cm n σ = (σ', Raise e)
  end.
Proof.
  intros Hl. unfold prox_uv_model_inplace.
  rewrite (se_bind_ok _ _ _ _ _ (load_ok _ _ _ Hl)).
  destruct (prox_uv_model a cm n) as [[u nrm]|e]; [|by eexists].
  unfold se_lift, overwrite, alloc, se_ret, se_bind. cbn [fst snd].
  do 3 eexists. split; [reflexivity|]. split_and!.
  - apply lookup_fresh_ne. by rewrite lookup_insert_eq.
  - by rewrite lookup_insert_eq.
  - by left.
Qed.

(** On the store of the small problem, the evaluator by reference returns
    what the evaluator on values returns, in both modes. *)
Lemma evaluator_ref_value_small fe :
  snd (compute_X_and_objective_multi_ref prox_uv_model_inplace 0 1 2 1 fe
         "separate" store_small)
  = compute_X_and_objective_multi X_small
      {| shape := [1; 1; 2]%nat; data := [398 # 200; 0] |} uv_long 1 fe
      "separate".
Proof.
  by apply (@evaluator_ref_value model_stages prox_uv_model_inplace
              prox_uv_model_inplace_frame prox_uv_model_inplace_spec).
Qed.

(** * Further properties of the driver *)

Section Record.
Context `{Stages}.

Lemma reg_of_next c ii l :
  reg_ l = reg_at c ii ->
  (if (ii =? 1)%nat then reg c else reg_ l) = reg_of c ii.
Proof. intros ->. unfold reg_at, reg_of. by destruct ii as [|[|ii]]. Qed.

Lemma reg_at_next c ii : reg_of c ii = reg_at c (S ii).
Proof. unfold reg_at, reg_of. by destruct ii as [|[|ii]]. Qed.

(** The record of the loop: complete iterations in order, then, if the
    loop was left on all-zero activations, the events of that exit. *)
Lemma loop_events c b n : forall a l w w' sg l',
  reg_ l = reg_at c a ->
  loop c b (seq a n) l w = (w', Ok (sg, l')) ->
  exists k,
    (k <= n)%nat
    /\ events w' = events w
         ++ flat_map (iteration_events c) (seq a k)
         ++ match sg with
            | Break_all_zero => all_zero_events c (a + k)
            | _ => []
            end
    /\ length (pobj l') = (length (pobj l) + 2 * k)%nat
    /\ (sg = Continue -> k = n)
    /\ (sg = Break_all_zero -> (k < n)%nat).
Proof.
  induction n as [|n IH]; intros a l w w' sg l' Hreg; cbn [seq loop].
  - intros [= <- <- <-]. exists 0%nat. cbn. rewrite app_nil_r.
    split_and!; try done; lia.
  - intros Hrun.
    apply se_bind_inv in Hrun as (w1 & [sg1 l1] & Hbody & Hrun).
    destruct (body_inv _ _ _ _ _ _ _ _ Hbody) as (t1 & _ & Hreg1 & Hcases).
    rewrite (reg_of_next _ _ _ Hreg) in Hreg1, Hcases.
    destruct Hcases as [Hz|Hfull].
    + destruct Hz as (_ & -> & _ & Hp & _ & Hev). cbn [fst snd] in Hrun.
      injection Hrun as <- <- <-. exists 0%nat.
      rewrite Nat.add_0_r, Hp. cbn [seq flat_map app].
      split_and!; try done; lia.
    + destruct Hfull as (_ & v1 & v2 & t2 & _ & _ & _ & Hp & _ & Hsg & Hev).
      cbn [fst snd] in Hrun.
      assert (Hlen : length (pobj l1) = (length (pobj l) + 2)%nat)
        by (rewrite Hp, length_app; cbn; lia).
      destruct sg1.
      * rewrite reg_at_next in Hreg1.
        destruct (IH _ _ _ _ _ _ Hreg1 Hrun) as (k & Hk & Hev' & Hp' & Hc & Hz).
        exists (S k). rewrite Hev', Hev, Hp', Hlen.
        cbn [seq flat_map].
        replace (a + S k)%nat with (S a + k)%nat by lia.
        split_and!; try lia.
        -- unfold iteration_events. by rewrite <- !app_assoc.
        -- intros Hsg'. by rewrite (Hc Hsg').
        -- intros Hsg'. specialize (Hz Hsg'). lia.
      * unfold exit_of in Hsg.
        destruct (Qlt_bool _ _); [done|].
        destruct (stopping_pobj c); [destruct (Qlt_bool _ _)|]; done.
      * injection Hrun as <- <- <-. exists 1%nat.
        rewrite Hev, Hlen. cbn [seq flat_map]. rewrite !app_nil_r.
        split_and!; try done; lia.
      * injection Hrun as <- <- <-. exists 1%nat.
        rewrite Hev, Hlen. cbn [seq flat_map]. rewrite !app_nil_r.
        split_and!; try done; lia.
Qed.

End Record.

Section Order.
Context `{Stages}.

(** X1.  The record of a run that returns: the projection of the initial
    atoms and the initial objective; then complete iterations 0, 1, ...,
    each the sparse-code stage, the objective, the dictionary stage, the
    objective and the callback if there is one; then, if the loop was left
    on all-zero activations, the sparse-code stage and the warning; then
    the refinement.  There are at most [n_iter] complete iterations and
    the trace of objectives has one entry and two more for each. *)
Theorem call_order c w w' p t uv Z :
  learn_d_z_multi c w = (w', Ok (p, t, uv, Z)) ->
  exists k tail,
    (k <= Z.to_nat (n_iter c))%nat
    /\ events w' = events w
         ++ [Call_prox_uv (uv_constraint c); Call_objective (reg c) true]
         ++ flat_map (iteration_events c) (seq 0 k)
         ++ tail ++ [Call_support_least_square]
    /\ (tail = [] \/ tail = all_zero_events c k /\ (k < Z.to_nat (n_iter c))%nat)
    /\ length p = (1 + 2 * k)%nat.
Proof.
  unfold learn_d_z_multi. intros Hrun.
  apply se_bind_inv in Hrun as (w1 & [b l0] & Hinit & Hrun).
  apply se_bind_inv in Hrun as (w1' & [] & Hpool & Hrun).
  apply se_lift_inv in Hpool as [_ ->].
  apply se_bind_inv in Hrun as (w2 & [sg l1] & Hloop & Hrun).
  destruct (initialise_inv _ _ _ _ _ Hinit)
    as (? & ? & ? & ? & ? & v & _ & _ & _ & _ & _ & Hp0 & _ & Hreg & Hev0).
  cbn [fst snd] in *.
  destruct (loop_events c b _ 0%nat l0 w1 w2 sg l1 Hreg Hloop)
    as (k & Hk & Hev & Hp & _ & Hz).
  unfold finish in Hrun.
  apply se_bind_inv in Hrun as (w3 & Zr & Hls & Hrun).
  apply call_inv in Hls as [_ ->].
  apply se_ret_inv in Hrun as [[= -> -> -> ->] ->]. cbn [events].
  exists k, (match sg with Break_all_zero => all_zero_events c k | _ => [] end).
  rewrite Hev, Hev0, Hp, Hp0, <- !app_assoc. cbn [length Nat.add].
  split_and!; [done|done| |done].
  destruct sg; try by left. right. split; [done|]. by apply Hz.
Qed.

(** X2.  With [eps > 0], an iteration [ii] whose dictionary update does
    not decrease the objective is the last one: the loop is left at the
    convergence check with the state of that iteration, whatever
    iterations [iis] are left. *)
Theorem no_decrease_stops c b ii iis l w w' sg l' v1 v2 :
  body c b ii l w = (w', Ok (sg, l')) ->
  pobj l' = pobj l ++ [v1; v2] ->
  0 < eps c ->
  v1 <= v2 ->
  loop c b (ii :: iis) l w = (w', Ok (Break_eps, l')).
Proof.
  intros Hrun Hp Heps Hle. rewrite (loop_step _ _ _ iis _ _ _ _ _ Hrun).
  destruct (body_inv _ _ _ _ _ _ _ _ Hrun) as (t1 & _ & _ & [Hzero|Hfull]).
  - destruct Hzero as (_ & _ & _ & Hp' & _). rewrite Hp' in Hp.
    apply (f_equal length) in Hp. rewrite length_app in Hp. cbn in Hp. lia.
  - destruct Hfull as (_ & u1 & u2 & t2 & _ & _ & _ & Hp' & _ & -> & _).
    rewrite Hp' in Hp. apply app_inv_head in Hp. injection Hp as -> ->.
    unfold exit_of.
    assert (Hlt : Qlt_bool (v1 - v2) (eps c) = true).
    { apply Qlt_bool_iff. apply Qle_lt_trans with (y := 0); [|done].
      apply (Qplus_le_l _ _ v2). ring_simplify. exact Hle. }
    by rewrite Hlt.
Qed.

End Order.

Section Callback.
Context `{Stages}.

(** X4.  In an iteration that returns and reaches the dictionary update,
    the callback, if there is one, has been called on the data, on the
    atoms and the activations the iteration ends with, and on the full
    regularisation, and it has returned. *)
Theorem callback_called c b ii l w w' sg l' f :
  body c b ii l w = (w', Ok (sg, l')) ->
  sg <> Break_all_zero ->
  callback c = Some f ->
  f (X c) (uv_hat l') (Z_hat l') (reg c) = Ok tt.
Proof.
  intros Hrun Hsg Hcb. revert Hrun.
  unfold body, monitor, call, emit, now, se_modify, se_lift, se_ret, se_bind.
  cbn [events clock].
  destruct (update_z_multi _ _ _ _ _ _) as [Z'|e]; [|done].
  destruct (count_nonzero Z' =? 0)%nat.
  { intros [= _ <- _]. done. }
  destruct (compute_X_and_objective_multi _ Z' (uv_hat l) _ _ _)
    as [v1|e]; [|done].
  destruct (call_func_d _ _ _ _) as [uv'|e]; [|done].
  destruct (compute_X_and_objective_multi _ Z' uv' _ _ _) as [v2|e]; [|done].
  rewrite Hcb.
  destruct (f (X c) uv' Z' (reg c)) as [[]|e] eqn:Hf; [|done].
  rewrite from_end_2, from_end_1.
  destruct (Qlt_bool (v1 - v2) (eps c));
    [|destruct (stopping_pobj c) as [fl|]; [destruct (Qlt_bool v2 fl)|]];
    by intros [= _ _ <-].
Qed.

(** X5.  An exception of the callback is not caught: the driver raises
    it.  The iterations left and the refinement are not run. *)
Theorem callback_failure c b ii iis l w Z' v1 uv' v2 f e :
  let reg_' := if (ii =? 1)%nat then reg c else reg_ l in
  update_z_multi (X c) (uv_hat l) reg_' (Z_hat l) (solver_z c)
    (solver_z_kwargs c) = Ok Z' ->
  count_nonzero Z' <> 0%nat ->
  compute_X_and_objective_multi (X c) Z' (uv_hat l) (reg c) true
    (uv_constraint c) = Ok v1 ->
  call_func_d c Z' (uv_hat l) b = Ok uv' ->
  compute_X_and_objective_multi (X c) Z' uv' (reg c) true
    (uv_constraint c) = Ok v2 ->
  callback c = Some f ->
  f (X c) uv' Z' (reg c) = Raise e ->
  exists w',
    se_bind (loop c b (ii :: iis) l) (fun r => finish c (snd r)) w
    = (w', Raise e)
    /\ events w' = events w
         ++ [Call_update_z_multi ii reg_' (solver_z c);
             Call_objective (reg c) true;
             Call_func_d ii (solver_d c);
             Call_objective (reg c) true;
             Call_callback ii].
Proof.
  intros reg_' HZ Hnz Hv1 Huv Hv2 Hcb Hf.
  apply Nat.eqb_neq in Hnz. cbn [loop].
  unfold body, finish, monitor, call, emit, now, se_modify, se_lift, se_ret,
    se_bind.
  fold reg_'. cbn [events clock].
  rewrite HZ, Hnz, Hv1, Huv, Hv2, Hcb, Hf. cbn [events clock].
  eexists. split; [reflexivity|]. cbn [events]. by rewrite <- !app_assoc.
Qed.

End Callback.

(** ** The keyword arguments of the dictionary update *)

Section Keywords.
Context `{Stages}.

(** X6.  Unless [solver_d_kwargs] repeats a keyword of the call, [func_d]
    is called with the keyword arguments of [solver_d_kwargs] and, where
    [solver_d_kwargs] does not set them, [verbose] as given to the driver
    and [eps = 1e-8]: the [eps] of the driver is not handed on. *)
Theorem func_d_keyword_arguments c Z uv b :
  (forall k, In k func_d_keywords -> solver_d_kwargs c !! k = None) ->
  exists d : kwargs,
    call_func_d c Z uv b
    = func_d c (X c) Z uv b (solver_d c) (uv_constraint c) d
    /\ d !! "eps"
       = Some (default (PyFloat (1 # 100000000)) (solver_d_kwargs c !! "eps"))
    /\ d !! "verbose"
       = Some (default (PyInt (verbose c)) (solver_d_kwargs c !! "verbose"))
    /\ forall k, k <> "eps" -> k <> "verbose" ->
                 d !! k = solver_d_kwargs c !! k.
Proof.
  intros Hfree. unfold call_func_d.
  set (d := solver_d_kwargs c ∪ _).
  assert (Hd : forall k, d !! k
            = match solver_d_kwargs c !! k with
              | Some v => Some v
              | None => (<["verbose" := PyInt (verbose c)]>
                           (<["eps" := PyFloat (1 # 100000000)]> ∅)
                         : kwargs) !! k
              end).
  { intros k. unfold d. rewrite lookup_union.
    by destruct (solver_d_kwargs c !! k), (_ !! k). }
  assert (Hno : existsb (fun k => bool_decide (is_Some (d !! k)))
                        ["uv_hat0"; "b_hat_0"; "solver_d"; "uv_constraint"]
                = false).
  { apply not_true_is_false. intros Hex.
    apply existsb_exists in Hex as (k & Hk & Hsome).
    apply bool_decide_eq_true in Hsome. rewrite Hd, (Hfree k Hk) in Hsome.
    cbn in Hk. destruct Hk as [<-|[<-|[<-|[<-|[]]]]];
      by destruct Hsome as [? [=]]. }
  rewrite Hno. exists d. split; [done|]. split_and!.
  - rewrite Hd. by destruct (solver_d_kwargs c !! "eps").
  - rewrite Hd. by destruct (solver_d_kwargs c !! "verbose").
  - intros k Heps Hverbose. rewrite Hd.
    destruct (solver_d_kwargs c !! k); [done|].
    by rewrite !lookup_insert_ne, lookup_empty.
Qed.

(** X7.  When [solver_d_kwargs] repeats a keyword of the call, the call
    of the dictionary update is a [TypeError], whatever [func_d] is. *)
Theorem func_d_keyword_clash c Z uv b k :
  In k func_d_keywords ->
  is_Some (solver_d_kwargs c !! k) ->
  exists msg, call_func_d c Z uv b = Raise (TypeError msg).
Proof.
  intros Hk [v Hv]. unfold call_func_d.
  set (d := solver_d_kwargs c ∪ _).
  assert (Hyes : existsb (fun k => bool_decide (is_Some (d !! k)))
                         ["uv_hat0"; "b_hat_0"; "solver_d"; "uv_constraint"]
                 = true).
  { apply existsb_exists. exists k. split; [exact Hk|].
    apply bool_decide_eq_true. exists v. unfold d.
    by apply lookup_union_Some_l. }
  rewrite Hyes. by eexists.
Qed.

End Keywords.

Section Workers.
Context `{Stages}.


End Workers.

(** ** The objective *)

Lemma Qplus_nonneg (a b : Q) : 0 <= a -> 0 <= b -> 0 <= a + b.
Proof.
  intros Ha Hb. apply Qle_trans with (y := 0 + 0); [by vm_compute|].
  by apply Qplus_le_compat.
Qed.

Lemma Qsquare_nonneg (x : Q) : 0 <= x * x.
Proof.
  destruct x as [n d]. unfold Qle. cbn. rewrite Z.mul_1_r.
  apply Z.square_nonneg.
Qed.

Lemma qsum_nonneg (l : list Q) : Forall (fun x => 0 <= x) l -> 0 <= qsum l.
Proof.
  induction 1 as [|x l Hx _ IH]; cbn; [apply Qle_refl|].
  by apply Qplus_nonneg.
Qed.

(** X8.  On arrays of floats, with a regularisation that is not negative
    and activations that are not negative, the objective is not
    negative. *)
Theorem objective_nonneg X0 X_hat Z reg0 v :
  objective X0 X_hat Z reg0 = Ok v ->
  0 <= reg0 ->
  Forall (fun z => 0 <= z) (data Z) ->
  0 <= v.
Proof.
  unfold objective, np_sub, np_mul, mbind, res_mbind, mret, res_ret.
  intros Hobj Hreg HZ.
  destruct (broadcast_op Qminus X0 X_hat) as [R|e]; cbn [res_bind] in Hobj;
    [|done].
  destruct (broadcast_op Qmult R R) as [sq|e] eqn:Hsq; cbn [res_bind] in Hobj;
    [|done].
  injection Hobj as <-.
  assert (Hsquares : Forall (fun x => 0 <= x) (data sq)).
  { unfold broadcast_op in Hsq. destruct (broadcast_rev _ _); [|done].
    injection Hsq as <-. cbn [data].
    apply Forall_map_all. intros i. cbn. apply Qsquare_nonneg. }
  apply Qplus_nonneg.
  - apply Qmult_le_0_compat; [done|]. by apply qsum_nonneg.
  - apply Qmult_le_0_compat; [done|]. by apply qsum_nonneg.
Qed.

(** X9.  The objective is defined exactly when the shapes of the data and
    of the reconstruction can be broadcast together: the square of the
    residual never fails. *)
Theorem objective_defined X0 X_hat Z reg0 :
  is_Ok (objective X0 X_hat Z reg0) = true
  <-> is_Some (broadcast_rev (rev (shape X0)) (rev (shape X_hat))).
Proof.
  unfold objective, np_sub, np_mul, mbind, res_mbind, mret, res_ret.
  unfold broadcast_op.
  destruct (broadcast_rev (rev (shape X0)) (rev (shape X_hat))) as [r|];
    cbn [res_bind shape].
  - rewrite broadcast_rev_same. cbn. split; [by eexists|done].
  - cbn. split; [done|]. by intros [? [=]].
Qed.

(** X10.  When the reconstruction is the data, the objective is the
    regularisation times the sum of the activations. *)
Theorem objective_exact_fit X0 Z reg0 :
  exists v, objective X0 X0 Z reg0 = Ok v /\ v == reg0 * np_sum Z.
Proof.
  unfold objective, np_sub, np_mul.
  rewrite broadcast_op_same by done.
  unfold mbind, res_mbind, mret, res_ret. cbn [res_bind].
  rewrite broadcast_op_same by done.
  cbn [res_bind]. eexists. split; [reflexivity|].
  unfold np_sum. cbn [data shape].
  rewrite qsum_map_zero; [ring|].
  intros i. rewrite nth_zero; [ring|].
  apply Forall_map_all. intros j. ring.
Qed.

Section Rescale.
Context `{Stages}.

Lemma rescale_index (k t v i : nat) :
  (i < v * (t * (k * 1)))%nat ->
  ravel_rev [1; 1; k]%nat (unravel_rev [v; t; k]%nat i) = (i / (t * v))%nat.
Proof.
  intros Hi. cbn [ravel_rev unravel_rev Nat.eqb].
  assert (Hv : v <> 0%nat) by (intros ->; lia).
  assert (Ht : t <> 0%nat) by (intros ->; lia).
  rewrite Nat.Div0.div_div, (Nat.mul_comm v t).
  assert (Hq : (i / (t * v) < k)%nat)
    by (apply Nat.Div0.div_lt_upper_bound; lia).
  destruct (k =? 1)%nat eqn:Hk.
  - apply Nat.eqb_eq in Hk. lia.
  - rewrite Nat.mod_small by done. lia.
Qed.

(** X11.  On arrays of floats, the feasible evaluation is the plain
    evaluation of the projected atoms and of rescaled activations: every
    activation of atom [a] is multiplied by the factor the projection
    reports for [a]. *)
Theorem feasible_evaluation_rescales X0 Z uv reg0 cm n uv' nrm k t v :
  shape X0 !! 1%nat = Some n ->
  prox_uv uv cm n = Ok (uv', nrm) ->
  shape nrm = [k] ->
  shape Z = [k; t; v] ->
  exists Z',
    shape Z' = shape Z
    /\ length (data Z') = (k * t * v)%nat
    /\ (forall i, (i < k * t * v)%nat ->
          nth i (data Z') 0
          = nth i (data Z) 0 * nth (i / (t * v)) (data nrm) 0)
    /\ compute_X_and_objective_multi X0 Z uv reg0 true cm
       = compute_X_and_objective_multi X0 Z' uv' reg0 false cm.
Proof.
  intros Hn Hprox Hnrm HZ. unfold compute_X_and_objective_multi.
  rewrite Hn. unfold mbind, res_mbind, mret, res_ret. cbn [res_bind].
  rewrite Hprox. cbn [res_bind].
  unfold expand_axes. rewrite Hnrm. cbn [res_bind].
  unfold np_imul, np_mul, broadcast_op. rewrite HZ. cbn [shape rev app].
  assert (Hb : broadcast_rev [v; t; k] [1%nat; 1%nat; k] = Some [v; t; k]).
  { cbn [broadcast_rev]. rewrite Nat.eqb_refl. cbn [Nat.eqb].
    by destruct (t =? 1)%nat, (v =? 1)%nat. }
  rewrite Hb. unfold mbind, res_mbind. cbn [res_bind shape rev app].
  rewrite decide_True by done. cbn [res_bind].
  eexists. split_and!; [| | |reflexivity]; cbn [shape data].
  - done.
  - rewrite length_map, length_seq. unfold size_of. cbn [fold_right]. lia.
  - intros i Hi.
    assert (Hi' : (i < size_of [v; t; k])%nat)
      by (unfold size_of; cbn [fold_right]; lia).
    rewrite (nth_map_seq _ _ _ _ Hi'). cbn zeta. unfold get_rev.
    rewrite HZ. cbn [shape rev app data].
    rewrite (ravel_unravel [v; t; k] i Hi').
    rewrite rescale_index by (unfold size_of in Hi'; cbn [fold_right] in Hi'; lia).
    done.
Qed.

End Rescale.

(** ** The properties above on the small problem *)

Lemma call_order_witness :
  exists k tail,
    (k <= Z.to_nat (n_iter (small 5 1 None)))%nat
    /\ events world_end = events world0
         ++ [Call_prox_uv (uv_constraint (small 5 1 None));
             Call_objective (reg (small 5 1 None)) true]
         ++ flat_map (iteration_events (small 5 1 None)) (seq 0 k)
         ++ tail ++ [Call_support_least_square]
    /\ (tail = []
        \/ tail = all_zero_events (small 5 1 None) k
           /\ (k < Z.to_nat (n_iter (small 5 1 None)))%nat)
    /\ length (pobj locals2) = (1 + 2 * k)%nat.
Proof.
  apply (call_order (small 5 1 None) world0 world_end (pobj locals2)
           (times locals2) uv_unit (Z_hat locals2)).
  vm_compute. reflexivity.
Defined.

Lemma trace_lengths_witness :
  exists k rest,
    length (pobj locals2) = (1 + 2 * k)%nat
    /\ times locals2 = 0 :: rest
    /\ (length (times locals2) = length (pobj locals2)
        \/ length (times locals2) = S (length (pobj locals2))).
Proof.
  apply (trace_lengths (small 5 1 None) world0 world_end (pobj locals2)
           (times locals2) uv_unit (Z_hat locals2)).
  vm_compute. reflexivity.
Defined.

Lemma no_decrease_stops_witness :
  loop (small 5 1 None) b_hat_small [1; 2; 3; 4]%nat locals1 world1
  = (world2, Ok (Break_eps, locals2)).
Proof.
  apply (no_decrease_stops (small 5 1 None) b_hat_small 1%nat [2; 3; 4]%nat
           locals1 world1 world2 Break_eps locals2 (7 # 2) (7 # 2)).
  - vm_compute. reflexivity.
  - reflexivity.
  - by vm_compute.
  - vm_compute. discriminate.
Defined.


Lemma callback_called_witness :
  callback_unit X_small (uv_hat locals1) (Z_hat locals1) 1 = Ok tt.
Proof.
  apply (callback_called (small_callback callback_unit) b_hat_small 0%nat
           locals0 world0
           {| events := events world1 ++ [Call_callback 0]; clock := 4 |}
           Continue locals1 callback_unit).
  - vm_compute. reflexivity.
  - discriminate.
  - reflexivity.
Defined.

Lemma callback_failure_witness :
  exists w',
    se_bind (loop (small_callback callback_fails) b_hat_small [0%nat; 1%nat]
               locals0)
            (fun r => finish (small_callback callback_fails) (snd r)) world0
    = (w', Raise (StageFailure "stop"))
    /\ events w' = events world0
         ++ [Call_update_z_multi 0 (reg_ locals0) "l_bfgs";
             Call_objective 1 true; Call_func_d 0 "alternate";
             Call_objective 1 true; Call_callback 0].
Proof.
  apply (callback_failure (small_callback callback_fails) b_hat_small 0%nat
           [1%nat] locals0 world0 (Z_hat locals1) (1665283200 # 256000000)
           uv_unit (64160800 # 16000000) callback_fails
           (StageFailure "stop")).
  - vm_compute. reflexivity.
  - vm_compute. discriminate.
  - vm_compute. reflexivity.
  - vm_compute. reflexivity.
  - vm_compute. reflexivity.
  - reflexivity.
  - reflexivity.
Defined.

Lemma func_d_keyword_arguments_witness :
  let c := small_kwargs {["eps" := PyFloat (1 # 1000)]} in
  exists d : kwargs,
    call_func_d c (Z_hat locals1) uv_half b_hat_small
    = func_d c (X c) (Z_hat locals1) uv_half b_hat_small (solver_d c)
        (uv_constraint c) d
    /\ d !! "eps"
       = Some (default (PyFloat (1 # 100000000)) (solver_d_kwargs c !! "eps"))
    /\ d !! "verbose"
       = Some (default (PyInt (verbose c)) (solver_d_kwargs c !! "verbose"))
    /\ forall k, k <> "eps" -> k <> "verbose" ->
                 d !! k = solver_d_kwargs c !! k.
Proof.
  intros c.
  apply (func_d_keyword_arguments c (Z_hat locals1) uv_half b_hat_small).
  intros k Hk. cbn in Hk.
  destruct Hk as [<-|[<-|[<-|[<-|[]]]]]; reflexivity.
Defined.

Lemma func_d_keyword_clash_witness :
  exists msg,
    call_func_d (small_kwargs {["solver_d" := PyStr "joint"]})
                (Z_hat locals1) uv_half b_hat_small
    = Raise (TypeError msg).
Proof.
  apply (func_d_keyword_clash
           (small_kwargs {["solver_d" := PyStr "joint"]})
           (Z_hat locals1) uv_half b_hat_small "solver_d").
  - cbn. tauto.
  - eexists. reflexivity.
Defined.

Lemma objective_nonneg_witness : 0 <= 104080200 # 16000000.
Proof.
  apply (objective_nonneg X_small
           {| shape := [1; 1; 2]%nat; data := [199 # 200; 0] |}
           (Z_hat locals1) 1 (104080200 # 16000000)).
  - vm_compute. reflexivity.
  - by vm_compute.
  - repeat constructor; by vm_compute.
Defined.


(** * Properties of the whitening filters *)

Lemma feasible_evaluation_rescales_witness :
  exists Z',
    shape Z' = [1; 1; 2]%nat
    /\ length (data Z') = (1 * 1 * 2)%nat
    /\ (forall i, (i < 1 * 1 * 2)%nat ->
          nth i (data Z') 0 = nth i [3; 5] 0 * nth (i / (1 * 2)) [2] 0)
    /\ @compute_X_and_objective_multi model_stages X_small
         {| shape := [1; 1; 2]%nat; data := [3; 5] |} uv_long 1 true
         "separate"
       = @compute_X_and_objective_multi model_stages X_small Z'
           {| shape := [1; 2]%nat; data := [2 # 2; 1] |} 1 false "separate".
Proof.
  apply (@feasible_evaluation_rescales model_stages X_small
           {| shape := [1; 1; 2]%nat; data := [3; 5] |} uv_long 1 "separate"
           1%nat {| shape := [1; 2]%nat; data := [2 # 2; 1] |}
           {| shape := [1]%nat; data := [2] |} 1%nat 1%nat 2%nat);
    reflexivity.
Defined.

Module WhiteningFacts.
Import Whitening.

Lemma length_conv_full (x a : list Q) :
  length (conv_full x a) = (length x + length a - 1)%nat.
Proof. unfold conv_full. by rewrite length_map, length_seq. Qed.

Lemma length_centered (l : list Q) (n : nat) :
  (n <= length l)%nat -> length (centered l n) = n.
Proof.
  intros Hn. unfold centered. rewrite length_take, length_drop.
  assert ((length l - n) / 2 <= length l - n)%nat
    by (apply Nat.Div0.div_le_upper_bound; lia).
  lia.
Qed.

Lemma fftconvolve_same (x : ndarray) (coef : list Q) d :
  shape x = [d] -> coef <> [] ->
  exists y,
    fftconvolve x coef "same" = Return y
    /\ shape y = [length (data x)]
    /\ length (data y) = length (data x).
Proof.
  intros Hx Hcoef. unfold fftconvolve. rewrite Hx.
  destruct coef as [|c0 coef]; [done|]. cbn [length].
  destruct (length (data x)) as [|n] eqn:Hn; cbn [Nat.eqb orb].
  - by eexists.
  - case_bool_decide; [done|]. case_bool_decide; [|done].
    eexists. split; [reflexivity|].
    unfold vector. cbn [shape data].
    rewrite length_centered; [done|].
    rewrite length_conv_full, Hn. cbn [length]. lia.
Qed.

Lemma flip_vector (y : ndarray) n :
  shape y = [n] ->
  flip y = Return {| shape := [n]; data := rev (data y) |}.
Proof. intros Hy. unfold flip. by rewrite Hy. Qed.

Lemma rows_of_spec (A : ndarray) d s :
  shape A = d :: s ->
  length (data A) = (d * size_of s)%nat ->
  length (rows_of A) = d
  /\ Forall (fun r => shape r = s /\ length (data r) = size_of s) (rows_of A).
Proof.
  intros HA Hlen. unfold rows_of. rewrite HA.
  split; [by rewrite length_map, length_seq|].
  apply Forall_forall. intros r Hr.
  apply list_elem_of_In, in_map_iff in Hr as (i & <- & Hi).
  apply in_seq in Hi. cbn [shape data]. split; [done|].
  rewrite length_take, length_drop, Hlen. nia.
Qed.

Lemma for_each_Forall {A B} (f : A -> result B) (P : B -> Prop) (l : list A) :
  Forall (fun a => exists b, f a = Return b /\ P b) l ->
  exists bs,
    for_each f l = Return bs /\ Forall P bs /\ length bs = length l.
Proof.
  induction 1 as [|a l (b & Hb & HP) _ (bs & Hbs & HPs & Hlen)]; cbn.
  - exists []. by split_and!.
  - exists (b :: bs). rewrite Hb. unfold mbind, result_mbind. cbn.
    rewrite Hbs. cbn. split_and!; [done|by constructor|by rewrite Hlen].
Qed.

Lemma np_array_shape (l : list ndarray) s :
  l <> [] ->
  Forall (fun B => shape B = s) l ->
  np_array l = Return {| shape := length l :: s; data := flat_map data l |}.
Proof.
  intros Hl Hs. destruct l as [|A l]; [done|]. unfold np_array.
  assert (HA : shape A = s) by (by inversion Hs).
  assert (Hall : forallb (fun B => bool_decide (shape B = shape A)) (A :: l)
                 = true).
  { apply forallb_forall. intros B HB. apply bool_decide_eq_true.
    rewrite Forall_forall in Hs. rewrite HA. apply Hs.
    by apply list_elem_of_In. }
  by rewrite Hall, HA.
Qed.

Lemma length_flat_map_data (l : list ndarray) n :
  Forall (fun B => length (data B) = n) l ->
  length (flat_map data l) = (length l * n)%nat.
Proof.
  induction 1 as [|B l HB _ IH]; [done|]. cbn.
  rewrite length_app, IH, HB. lia.
Qed.

Lemma concat_chunk {A} (L : list (list A)) m : forall i c,
  Forall (fun c => length c = m) L ->
  L !! i = Some c ->
  take m (drop (i * m) (concat L)) = c.
Proof.
  induction L as [|c0 L IH]; intros i c HL Hi; [done|].
  apply Forall_cons in HL as [Hc0 HL'].
  destruct i as [|i]; cbn [concat lookup list_lookup Nat.mul] in *.
  - injection Hi as <-. rewrite drop_0, <- Hc0. apply take_app_length.
  - rewrite drop_app_ge by lia.
    replace (m + i * m - length c0)%nat with (i * m)%nat by lia.
    by apply IH.
Qed.

Lemma length_concat_chunks {A} (L : list (list A)) m :
  Forall (fun c => length c = m) L ->
  length (concat L) = (length L * m)%nat.
Proof.
  induction 1 as [|c L Hc _ IH]; [done|]. cbn.
  rewrite length_app, IH, Hc. lia.
Qed.

Lemma cut_le (m : nat) (i : Z) : (cut m i <= m)%nat.
Proof. unfold cut. destruct (i <? 0)%Z eqn:Hi; lia. Qed.

Lemma rows_of_lookup (A : ndarray) d s i :
  shape A = d :: s -> (i < d)%nat ->
  rows_of A !! i
  = Some {| shape := s;
            data := take (size_of s) (drop (i * size_of s) (data A)) |}.
Proof.
  intros HA Hi. unfold rows_of. rewrite HA.
  rewrite list_lookup_fmap, lookup_seq_lt by done. done.
Qed.

Section Shapes.
Context `{Arma_api}.

(** The filter in the mode ["same"] on a vector. *)
Lemma apply_ar_same (ar_model : arma) (x : ndarray) zero_phase
    reverse_ar n p :
  shape (AR_ ar_model) = [p] ->
  shape x = [n] ->
  length (data x) = n ->
  exists y,
    apply_ar ar_model x zero_phase "same" reverse_ar = Return y
    /\ shape y = [n]
    /\ length (data y) = n.
Proof.
  intros HAR Hx Hn. unfold apply_ar. rewrite HAR.
  unfold mbind, result_mbind. cbn [result_bind].
  set (coef := if reverse_ar then _ else _).
  assert (Hcoef : coef <> []).
  { unfold coef. destruct reverse_ar; [|done].
    intros Hnil. apply (f_equal (@length Q)) in Hnil.
    rewrite length_rev in Hnil. done. }
  destruct (fftconvolve_same x coef n Hx Hcoef) as (y1 & Hy1 & Hs1 & Hl1).
  destruct zero_phase.
  - rewrite Hy1. cbn [result_bind].
    rewrite (flip_vector _ _ Hs1). cbn [result_bind].
    destruct (fftconvolve_same {| shape := [length (data x)];
                                  data := rev (data y1) |} coef _
                eq_refl Hcoef) as (y2 & Hy2 & Hs2 & Hl2).
    rewrite Hy2. cbn [result_bind]. cbn [data] in Hs2, Hl2.
    rewrite (flip_vector _ _ Hs2). eexists. split; [reflexivity|].
    cbn [shape data]. rewrite !length_rev in *. by rewrite Hl2, Hl1, Hn.
  - exists y1. rewrite Hs1, Hl1, Hn. done.
Qed.

(** X12.  In the mode ["same"], the filter returns a signal as long as
    the one it is given, with or without the zero-phase pass and the
    reversal of the coefficients. *)
Theorem apply_ar_same_length (ar_model : arma) (x : ndarray) zero_phase
    reverse_ar n p :
  shape (AR_ ar_model) = [p] ->
  shape x = [n] ->
  length (data x) = n ->
  exists y,
    apply_ar ar_model x zero_phase "same" reverse_ar = Return y
    /\ shape y = [n]
    /\ length (data y) = n.
Proof. apply apply_ar_same. Qed.

(** The array built from the filtered channels of the trials. *)
Lemma apply_whitening_rows (ar_model : arma) zero_phase reverse_ar p
    (l : list ndarray) b n :
  shape (AR_ ar_model) = [p] ->
  Forall (fun r => shape r = [b; n] /\ length (data r) = size_of [b; n]) l ->
  exists rows,
    for_each
      (fun Xi =>
         Xi_white ← for_each (fun Xij => apply_ar ar_model Xij zero_phase
                                           "same" reverse_ar) (rows_of Xi);
         np_array Xi_white) l = Return rows
    /\ length rows = length l
    /\ Forall (fun r => shape r = match b with
                                  | O => [0%nat]
                                  | _ => [b; n]
                                  end
                        /\ length (data r) = (b * n)%nat) rows.
Proof.
  intros HAR Hl.
  edestruct (for_each_Forall
    (fun Xi =>
       Xi_white ← for_each (fun Xij => apply_ar ar_model Xij zero_phase
                                         "same" reverse_ar) (rows_of Xi);
       np_array Xi_white)
    (fun r => shape r = match b with O => [0%nat] | _ => [b; n] end
              /\ length (data r) = (b * n)%nat) l) as (rows & Hrows & HP & Hlen).
  - eapply Forall_impl; [exact Hl|]. intros Xi [HXi HlenXi]. cbn beta.
    unfold size_of in HlenXi. cbn [fold_right] in HlenXi.
    destruct (rows_of_spec Xi b [n] HXi) as [Hb Hrs].
    { unfold size_of. cbn [fold_right]. lia. }
    edestruct (for_each_Forall
      (fun Xij => apply_ar ar_model Xij zero_phase "same" reverse_ar)
      (fun y => shape y = [n] /\ length (data y) = n) (rows_of Xi))
      as (ys & Hys & HPys & Hlenys).
    + eapply Forall_impl; [exact Hrs|]. intros r [Hr Hlr]. cbn beta.
      unfold size_of in Hlr. cbn [fold_right] in Hlr.
      apply (apply_ar_same ar_model r zero_phase reverse_ar n p HAR Hr).
      lia.
    + rewrite Hys. unfold mbind, result_mbind. cbn [result_bind].
      rewrite Hb in Hlenys.
      destruct b as [|b'].
      * destruct ys; [|done]. by eexists.
      * rewrite (np_array_shape ys [n]).
        -- eexists. split; [reflexivity|]. cbn [shape data].
           rewrite Hlenys. split; [done|].
           rewrite (length_flat_map_data ys n), Hlenys; [done|].
           eapply Forall_impl; [exact HPys|]. by intros ? [? ?].
        -- by destruct ys.
        -- eapply Forall_impl; [exact HPys|]. by intros ? [? ?].
  - by exists rows.
Qed.

(** X13.  On trials of channels, in the mode ["same"], the whitening
    returns an array of the shape of the data when there is at least one
    trial and one channel.  Without trials the result has the shape
    [(0,)], and with trials without channels the shape (trials, 0). *)
Theorem apply_whitening_trials (ar_model : arma) (X : ndarray) zero_phase
    reverse_ar n_channels a b n p :
  shape (AR_ ar_model) = [p] ->
  shape X = [a; b; n] ->
  wf_array X ->
  exists Y,
    apply_whitening ar_model X zero_phase "same" reverse_ar n_channels
    = Return Y
    /\ wf_array Y
    /\ shape Y = match a, b with
                 | O, _ => [0%nat]
                 | _, O => [a; 0%nat]
                 | _, _ => [a; b; n]
                 end.
Proof.
  intros HAR HX Hwf. unfold apply_whitening. rewrite HX.
  unfold wf_array in Hwf. rewrite HX in Hwf.
  unfold size_of in Hwf. cbn [fold_right] in Hwf.
  destruct (rows_of_spec X a [b; n] HX) as [Ha Hrs].
  { unfold size_of. cbn [fold_right]. lia. }
  destruct (apply_whitening_rows ar_model zero_phase reverse_ar p
              (rows_of X) b n HAR Hrs) as (rows & Hrows & Hlen & HP).
  rewrite Hrows. unfold mbind, result_mbind. cbn [result_bind].
  rewrite Ha in Hlen.
  destruct a as [|a'].
  - destruct rows; [|done]. by eexists.
  - rewrite (np_array_shape rows (match b with O => [0%nat] | _ => [b; n] end)).
    + eexists. split; [reflexivity|]. unfold wf_array. cbn [shape data].
      rewrite Hlen.
      rewrite (length_flat_map_data rows (b * n)), Hlen.
      * split; [|by destruct b].
        destruct b; unfold size_of; cbn [fold_right]; lia.
      * eapply Forall_impl; [exact HP|]. by intros ? [? ?].
    + by destruct rows.
    + eapply Forall_impl; [exact HP|]. by intros ? [? ?].
Qed.

(** The whitening of at least one atom of rank 1. *)
Lemma apply_whitening_atoms (ar_model : arma) (X : ndarray) zero_phase
    reverse_ar n_channels k m p :
  shape (AR_ ar_model) = [p] ->
  shape X = [k; m] ->
  wf_array X ->
  (0 < k)%nat ->
  exists Y,
    apply_whitening ar_model X zero_phase "same" reverse_ar (Some n_channels)
    = Return Y
    /\ apply_whitening ar_model X zero_phase "same" (negb reverse_ar)
         (Some n_channels) = Return Y
    /\ shape Y = [k; m]
    /\ wf_array Y
    /\ forall i, (i < k)%nat ->
         take (cut m n_channels) (take m (drop (i * m) (data Y)))
         = take (cut m n_channels) (take m (drop (i * m) (data X))).
Proof.
  intros HAR HX Hwf Hk. unfold apply_whitening. rewrite HX.
  unfold wf_array in Hwf. rewrite HX in Hwf.
  unfold size_of in Hwf. cbn [fold_right] in Hwf.
  set (s := cut m n_channels).
  assert (Hs : (s <= m)%nat) by apply cut_le.
  destruct (rows_of_spec X k [m] HX) as [Hlenrows Hrs].
  { unfold size_of. cbn [fold_right]. lia. }
  edestruct (for_each_Forall
    (fun vk => apply_ar ar_model vk zero_phase "same" false)
    (fun y => shape y = [(m - s)%nat] /\ length (data y) = (m - s)%nat)
    (map (fun r => vector (drop s (data r))) (rows_of X)))
    as (ws & Hws & HPws & Hlenws).
  { apply Forall_map. eapply Forall_impl; [exact Hrs|].
    intros r [Hr Hlr]. cbn beta.
    unfold size_of in Hlr. cbn [fold_right] in Hlr.
    assert (Hv : length (drop s (data r)) = (m - s)%nat)
      by (rewrite length_drop; lia).
    apply (apply_ar_same ar_model _ zero_phase false (m - s) p HAR).
    - unfold vector. cbn [shape]. by rewrite Hv.
    - exact Hv. }
  rewrite length_map, Hlenrows in Hlenws.
  rewrite Hws. unfold mbind, result_mbind. cbn [result_bind].
  destruct ws as [|w0 ws']; [cbn in Hlenws; lia|].
  assert (Hw0 : shape w0 = [(m - s)%nat] /\ length (data w0) = (m - s)%nat)
    by (by inversion HPws).
  assert (Hall : forallb (fun w => bool_decide (shape w = shape w0))
                         (w0 :: ws') = true).
  { apply forallb_forall. intros w Hw. apply bool_decide_eq_true.
    rewrite Forall_forall in HPws. destruct Hw0 as [-> _].
    apply HPws. by apply list_elem_of_In. }
  rewrite Hall.
  set (chunks := zip_with (fun r w => take s (data r) ++ data w)
                          (rows_of X) (w0 :: ws')).
  assert (Hchunks : Forall (fun c => length c = m) chunks).
  { apply Forall_forall. intros c Hc.
    apply list_elem_of_lookup in Hc as (i & Hi). unfold chunks in Hi.
    apply lookup_zip_with_Some in Hi as (r & w & -> & Hr & Hw).
    rewrite Forall_forall in Hrs, HPws.
    destruct (Hrs r) as [_ Hlr]; [by eapply list_elem_of_lookup_2|].
    destruct (HPws w) as [_ Hlw]; [by eapply list_elem_of_lookup_2|].
    unfold size_of in Hlr. cbn [fold_right] in Hlr.
    rewrite length_app, length_take, Hlw. lia. }
  assert (Hlenchunks : length chunks = k).
  { unfold chunks. rewrite length_zip_with, Hlenrows, Hlenws. lia. }
  eexists. split; [reflexivity|]. split; [reflexivity|].
  cbn [shape data]. fold chunks. split_and!.
  - destruct Hw0 as [_ ->]. do 2 f_equal. lia.
  - unfold wf_array. cbn [shape data]. destruct Hw0 as [_ ->].
    rewrite (length_concat_chunks chunks m Hchunks), Hlenchunks.
    replace (s + (m - s))%nat with m by lia.
    unfold size_of. cbn [fold_right]. lia.
  - intros i Hi.
    pose proof (rows_of_lookup X k [m] i HX Hi) as Hri.
    destruct (lookup_lt_is_Some_2 (w0 :: ws') i) as [w Hwi];
      [rewrite Hlenws; lia|].
    set (r := {| shape := [m];
                 data := take (size_of [m])
                           (drop (i * size_of [m]) (data X)) |}) in Hri.
    rewrite (concat_chunk chunks m i (take s (data r) ++ data w) Hchunks).
    + unfold r. cbn [data]. unfold size_of. cbn [fold_right].
      rewrite Nat.mul_1_r.
      rewrite take_app_le
        by (rewrite !length_take, length_drop, Hwf; nia).
      rewrite take_take. f_equal. lia.
    + unfold chunks. apply lookup_zip_with_Some. eauto.
Qed.

(** X14.  On atoms of rank 1 (a row is a spatial pattern followed by a
    temporal pattern), in the mode ["same"], the whitening of at least
    one atom returns an array of the shape of the atoms in which the
    spatial patterns are the ones it was given: the filter is applied to
    the temporal patterns only.  Without atoms the result has no row and
    one column more than the spatial part kept by the slice.
    [reverse_ar] is not looked at. *)
Theorem apply_whitening_rank1 (ar_model : arma) (X : ndarray) zero_phase
    reverse_ar n_channels k m p :
  shape (AR_ ar_model) = [p] ->
  shape X = [k; m] ->
  wf_array X ->
  exists Y,
    apply_whitening ar_model X zero_phase "same" reverse_ar (Some n_channels)
    = Return Y
    /\ apply_whitening ar_model X zero_phase "same" (negb reverse_ar)
         (Some n_channels) = Return Y
    /\ shape Y = match k with
                 | O => [0%nat; (cut m n_channels + 1)%nat]
                 | _ => [k; m]
                 end
    /\ wf_array Y
    /\ forall i, (i < k)%nat ->
         take (cut m n_channels) (take m (drop (i * m) (data Y)))
         = take (cut m n_channels) (take m (drop (i * m) (data X))).
Proof.
  intros HAR HX Hwf. destruct k as [|k'].
  - unfold apply_whitening, rows_of. rewrite HX. cbn [seq map for_each].
    unfold mbind, result_mbind. cbn [result_bind].
    eexists. split_and!; try reflexivity. intros i Hi. lia.
  - apply (apply_whitening_atoms ar_model X zero_phase reverse_ar n_channels
             (S k') m p HAR HX Hwf). lia.
Qed.

End Shapes.

(** ** The filter is linear *)

Lemma qsum_lin {A} (c : Q) (f g h : A -> Q) (l : list A) :
  (forall x, h x == c * f x + g x) ->
  qsum (map h l) == c * qsum (map f l) + qsum (map g l).
Proof.
  intros Hh. induction l as [|a l IH].
  - change (0 == c * 0 + 0). ring.
  - change (h a + qsum (map h l)
            == c * (f a + qsum (map f l)) + (g a + qsum (map g l))).
    rewrite Hh, IH. ring.
Qed.

Lemma conv_full_nth (x a : list Q) (k : nat) :
  nth k (conv_full x a) 0
  = if (k <? length x + length a - 1)%nat
    then qsum (map (fun j => if (j <=? k)%nat
                             then nth (k - j) x 0 * nth j a 0 else 0)
                   (seq 0 (length a)))
    else 0.
Proof.
  unfold conv_full. destruct (k <? _)%nat eqn:Hk.
  - apply Nat.ltb_lt in Hk.
    exact (nth_map_seq (fun k => qsum (map (fun j => if (j <=? k)%nat
             then nth (k - j) x 0 * nth j a 0 else 0) (seq 0 (length a))))
             _ k 0 Hk).
  - apply Nat.ltb_ge in Hk. apply nth_overflow.
    by rewrite length_map, length_seq.
Qed.

Lemma centered_nth (l : list Q) (n i : nat) :
  nth i (centered l n) 0
  = if (i <? n)%nat then nth ((length l - n) / 2 + i) l 0 else 0.
Proof. unfold centered. by rewrite nth_firstn, nth_skipn. Qed.

Lemma rev_nth_total (l : list Q) (i : nat) :
  nth i (rev l) 0
  = if (i <? length l)%nat then nth (length l - S i) l 0 else 0.
Proof.
  destruct (i <? length l)%nat eqn:Hi.
  - apply Nat.ltb_lt in Hi. by apply rev_nth.
  - apply Nat.ltb_ge in Hi. apply nth_overflow. by rewrite length_rev.
Qed.

Lemma conv_full_lin c u v w a :
  entries_lin c u v w ->
  entries_lin c (conv_full u a) (conv_full v a) (conv_full w a).
Proof.
  intros (Huv & Hwv & Hw). unfold entries_lin.
  rewrite !length_conv_full, Huv, Hwv. split_and!; [done..|].
  intros k. rewrite !conv_full_nth, Huv, Hwv.
  destruct (k <? _)%nat; [|ring].
  apply qsum_lin. intros j. destruct (j <=? k)%nat; [|ring].
  rewrite Hw. ring.
Qed.

Lemma centered_lin c u v w n :
  entries_lin c u v w ->
  entries_lin c (centered u n) (centered v n) (centered w n).
Proof.
  intros (Huv & Hwv & Hw).
  assert (Hlen : forall l l' : list Q, length l = length l' ->
            length (centered l n) = length (centered l' n)).
  { intros l l' Hl. unfold centered.
    by rewrite !length_take, !length_drop, Hl. }
  split_and!; [by apply Hlen..|].
  intros i. rewrite !centered_nth, Huv, Hwv.
  destruct (i <? n)%nat; [apply Hw|ring].
Qed.

Lemma rev_lin c u v w :
  entries_lin c u v w -> entries_lin c (rev u) (rev v) (rev w).
Proof.
  intros (Huv & Hwv & Hw). unfold entries_lin.
  rewrite !length_rev. split_and!; [done..|].
  intros i. rewrite !rev_nth_total, Huv, Hwv.
  destruct (i <? _)%nat; [apply Hw|ring].
Qed.

Lemma fftconvolve_lin c (x x' x'' : ndarray) coef mode y y' :
  shape x = shape x' -> shape x'' = shape x' ->
  entries_lin c (data x) (data x') (data x'') ->
  fftconvolve x coef mode = Return y ->
  fftconvolve x' coef mode = Return y' ->
  exists y'',
    fftconvolve x'' coef mode = Return y''
    /\ shape y = shape y' /\ shape y'' = shape y'
    /\ entries_lin c (data y) (data y') (data y'').
Proof.
  intros Hs Hs'' Hlin. unfold fftconvolve. rewrite Hs, Hs''.
  pose proof Hlin as (Huv & Hwv & _). rewrite Huv, Hwv.
  destruct (shape x') as [|d [|? ?]]; try done.
  assert (Hvec : forall u v w : list Q,
    entries_lin c u v w ->
    shape (vector u) = shape (vector v)
    /\ shape (vector w) = shape (vector v)
    /\ entries_lin c (data (vector u)) (data (vector v)) (data (vector w))).
  { intros u v w Huvw. pose proof Huvw as (Hu & Hw & _).
    unfold vector. cbn [shape data]. by rewrite Hu, Hw. }
  destruct (_ || _).
  { intros [= <-] [= <-]. eexists. split; [reflexivity|].
    apply Hvec. unfold entries_lin. split_and!; [done..|]. intros i.
    destruct i; cbn; ring. }
  repeat case_bool_decide; try done.
  - intros [= <-] [= <-]. eexists. split; [reflexivity|].
    by apply Hvec, conv_full_lin.
  - intros [= <-] [= <-]. eexists. split; [reflexivity|].
    by apply Hvec, centered_lin, conv_full_lin.
  - intros [= <-] [= <-]. eexists. split; [reflexivity|].
    by apply Hvec, centered_lin, conv_full_lin.
Qed.

Lemma flip_lin c (x x' x'' : ndarray) d :
  shape x = [d] -> shape x' = [d] -> shape x'' = [d] ->
  entries_lin c (data x) (data x') (data x'') ->
  exists y y' y'',
    flip x = Return y /\ flip x' = Return y' /\ flip x'' = Return y''
    /\ shape y = shape y' /\ shape y'' = shape y'
    /\ entries_lin c (data y) (data y') (data y'').
Proof.
  intros Hx Hx' Hx'' Hlin.
  rewrite (flip_vector _ _ Hx), (flip_vector _ _ Hx'), (flip_vector _ _ Hx'').
  do 3 eexists. split_and!; try reflexivity. cbn [data]. by apply rev_lin.
Qed.

Lemma fftconvolve_vector (x : ndarray) coef mode y :
  fftconvolve x coef mode = Return y -> shape y = [length (data y)].
Proof.
  unfold fftconvolve. destruct (shape x) as [|d [|? ?]]; try done.
  destruct (_ || _); [by intros [= <-]|].
  repeat case_bool_decide; try done; by intros [= <-].
Qed.

Section Linear.
Context `{Arma_api}.

(** X15.  The filter is linear in the signal: on a signal [c * x + x'] it
    returns [c * y + y'], where [y] and [y'] are what it returns on [x]
    and on [x'], in every mode. *)
Theorem apply_ar_linear (ar_model : arma) c (x x' x'' : ndarray) zero_phase
    mode reverse_ar y y' :
  shape x = shape x' -> shape x'' = shape x' ->
  entries_lin c (data x) (data x') (data x'') ->
  apply_ar ar_model x zero_phase mode reverse_ar = Return y ->
  apply_ar ar_model x' zero_phase mode reverse_ar = Return y' ->
  exists y'',
    apply_ar ar_model x'' zero_phase mode reverse_ar = Return y''
    /\ shape y'' = shape y'
    /\ entries_lin c (data y) (data y') (data y'').
Proof.
  intros Hs Hs'' Hlin. unfold apply_ar.
  destruct (shape (AR_ ar_model)) as [|p [|? ?]]; try done.
  unfold mbind, result_mbind. cbn [result_bind].
  set (coef := if reverse_ar then _ else _).
  destruct zero_phase.
  - destruct (fftconvolve x coef mode) as [y1|e] eqn:Hy1; [|done].
    destruct (fftconvolve x' coef mode) as [y1'|e] eqn:Hy1'; [|done].
    destruct (fftconvolve_lin c x x' x'' coef mode y1 y1' Hs Hs'' Hlin
                Hy1 Hy1') as (y1'' & Hy1'' & Hs1 & Hs1'' & Hlin1).
    rewrite Hy1''. cbn [result_bind].
    pose proof (fftconvolve_vector _ _ _ _ Hy1') as Hv1'.
    destruct (flip_lin c y1 y1' y1'' _ (eq_trans Hs1 Hv1') Hv1'
                (eq_trans Hs1'' Hv1') Hlin1)
      as (f1 & f1' & f1'' & -> & -> & -> & Hsf & Hsf'' & Hlinf).
    cbn [result_bind].
    destruct (fftconvolve f1 coef mode) as [y2|e] eqn:Hy2; [|done].
    destruct (fftconvolve f1' coef mode) as [y2'|e] eqn:Hy2'; [|done].
    destruct (fftconvolve_lin c f1 f1' f1'' coef mode y2 y2' Hsf Hsf'' Hlinf
                Hy2 Hy2') as (y2'' & Hy2'' & Hs2 & Hs2'' & Hlin2).
    rewrite Hy2''. cbn [result_bind].
    pose proof (fftconvolve_vector _ _ _ _ Hy2') as Hv2'.
    destruct (flip_lin c y2 y2' y2'' _ (eq_trans Hs2 Hv2') Hv2'
                (eq_trans Hs2'' Hv2') Hlin2)
      as (f2 & f2' & f2'' & -> & -> & -> & Hsf2 & Hsf2'' & Hlinf2).
    intros [= <-] [= <-]. by exists f2''.
  - intros Hy Hy'.
    destruct (fftconvolve_lin c x x' x'' coef mode y y' Hs Hs'' Hlin Hy Hy')
      as (y'' & Hy'' & _ & Hsy'' & Hliny).
    by exists y''.
Qed.

End Linear.

(** ** A model of order zero *)

Lemma entries_eq_refl u : entries_eq u u.
Proof. by split. Qed.

Lemma entries_eq_trans u v w :
  entries_eq u v -> entries_eq v w -> entries_eq u w.
Proof.
  intros [Hl Hn] [Hl' Hn']. split; [congruence|].
  intros i. by rewrite Hn.
Qed.

Lemma entries_eq_rev u v : entries_eq u v -> entries_eq (rev u) (rev v).
Proof.
  intros [Hl Hn]. split; [by rewrite !length_rev|].
  intros i. rewrite !rev_nth_total, Hl. destruct (i <? _)%nat; [apply Hn|done].
Qed.

Lemma conv_full_one (x : list Q) : entries_eq (conv_full x [1]) x.
Proof.
  split; [rewrite length_conv_full; cbn; lia|].
  intros k. rewrite conv_full_nth. cbn [length seq map].
  replace (length x + 1 - 1)%nat with (length x) by lia.
  destruct (k <? length x)%nat eqn:Hk.
  - cbn [Nat.leb]. rewrite Nat.sub_0_r. unfold qsum. cbn [fold_right nth].
    ring.
  - apply Nat.ltb_ge in Hk. by rewrite nth_overflow.
Qed.

Lemma centered_all (l : list Q) : centered l (length l) = l.
Proof.
  unfold centered. rewrite Nat.sub_diag. cbn. by rewrite drop_0, firstn_all.
Qed.

Lemma fftconvolve_one (x : ndarray) mode d :
  shape x = [d] ->
  mode = "full" \/ mode = "same" \/ mode = "valid" ->
  exists y,
    fftconvolve x [1] mode = Return y
    /\ shape y = [length (data x)]
    /\ entries_eq (data y) (data x).
Proof.
  intros Hx Hmode. unfold fftconvolve. rewrite Hx. cbn [length].
  destruct (length (data x)) as [|n] eqn:Hn; cbn [Nat.eqb orb].
  - eexists. split; [reflexivity|]. destruct (data x); [|done].
    split; [done|apply entries_eq_refl].
  - pose proof (conv_full_one (data x)) as Hone.
    assert (Hlen : length (conv_full (data x) [1]) = S n)
      by (destruct Hone as [-> _]; done).
    assert (Hcen : centered (conv_full (data x) [1]) (S n)
                   = conv_full (data x) [1])
      by (rewrite <- Hlen; apply centered_all).
    replace (Nat.max (S n) 1 - Nat.min (S n) 1 + 1)%nat with (S n) by lia.
    rewrite Hcen.
    assert (Hvec : shape (vector (conv_full (data x) [1])) = [S n]
                   /\ entries_eq (data (vector (conv_full (data x) [1])))
                                 (data x)).
    { unfold vector. cbn [shape data]. by rewrite Hlen. }
    repeat case_bool_decide; try (by eexists).
    destruct Hmode as [?|[?|?]]; done.
Qed.

Section OrderZero.
Context `{Arma_api}.

(** X16.  With an autoregressive model of order zero (no coefficient
    beside the leading 1), the filter returns the signal it is given, in
    each of the three modes, with or without the zero-phase pass. *)
Theorem apply_ar_order_zero (ar_model : arma) (x : ndarray) zero_phase mode
    reverse_ar n :
  shape (AR_ ar_model) = [0%nat] ->
  data (AR_ ar_model) = [] ->
  shape x = [n] ->
  length (data x) = n ->
  mode = "full" \/ mode = "same" \/ mode = "valid" ->
  exists y,
    apply_ar ar_model x zero_phase mode reverse_ar = Return y
    /\ shape y = [n]
    /\ entries_eq (data y) (data x).
Proof.
  intros HAR Hcoefs Hx Hn Hmode. unfold apply_ar. rewrite HAR, Hcoefs.
  unfold mbind, result_mbind. cbn [result_bind].
  assert (Hcoef : (if reverse_ar then rev [1] else [1]) = [1])
    by (by destruct reverse_ar).
  rewrite Hcoef.
  destruct (fftconvolve_one x mode n Hx Hmode) as (y1 & Hy1 & Hs1 & He1).
  rewrite Hn in Hs1.
  destruct zero_phase; [|by exists y1].
  rewrite Hy1. cbn [result_bind].
  rewrite (flip_vector _ _ Hs1). cbn [result_bind].
  destruct (fftconvolve_one {| shape := [n]; data := rev (data y1) |} mode n
              eq_refl Hmode) as (y2 & Hy2 & Hs2 & He2).
  rewrite Hy2. cbn [result_bind]. cbn [data] in Hs2, He2.
  rewrite (flip_vector _ _ Hs2). eexists. split; [reflexivity|].
  cbn [shape data]. split.
  - destruct He1 as [Hl1 _]. by rewrite length_rev, Hl1, Hn.
  - apply entries_eq_trans with (v := data y1); [|done].
    pose proof (entries_eq_rev _ _ He2) as Hr.
    by rewrite rev_involutive in Hr.
Qed.

End OrderZero.

Lemma fftconvolve_full (x : ndarray) (coef : list Q) d :
  shape x = [d] -> data x <> [] -> coef <> [] ->
  fftconvolve x coef "full" = Return (vector (conv_full (data x) coef)).
Proof.
  intros Hx Hdata Hcoef. unfold fftconvolve. rewrite Hx.
  destruct (data x) as [|x0 xs]; [done|].
  destruct coef as [|c0 coef]; [done|]. cbn [length Nat.eqb orb].
  by rewrite bool_decide_eq_true_2.
Qed.

Section Full.
Context `{Arma_api}.

(** X17.  In the mode ["full"], the filter of order [p] returns a signal
    longer than the one it is given: by [p] samples, and by [2 * p] with
    the zero-phase pass. *)
Theorem apply_ar_full_length (ar_model : arma) (x : ndarray) zero_phase
    reverse_ar n p :
  shape (AR_ ar_model) = [p] ->
  length (data (AR_ ar_model)) = p ->
  shape x = [n] ->
  length (data x) = n ->
  (0 < n)%nat ->
  exists y,
    apply_ar ar_model x zero_phase "full" reverse_ar = Return y
    /\ shape y = [(n + if zero_phase then 2 * p else p)%nat]
    /\ length (data y) = (n + if zero_phase then 2 * p else p)%nat.
Proof.
  intros HAR Hp Hx Hn Hpos. unfold apply_ar. rewrite HAR.
  unfold mbind, result_mbind. cbn [result_bind].
  set (coef := if reverse_ar then _ else _).
  assert (Hlen : length coef = S p).
  { unfold coef. destruct reverse_ar; rewrite ?length_rev; cbn [length];
      by rewrite Hp. }
  assert (Hcoef : coef <> []) by (by destruct coef).
  assert (Hdata : data x <> []) by (destruct (data x); [cbn in Hn; lia|done]).
  rewrite (fftconvolve_full x coef n Hx Hdata Hcoef).
  assert (H1 : length (conv_full (data x) coef) = (n + p)%nat)
    by (rewrite length_conv_full, Hlen, Hn; lia).
  destruct zero_phase.
  - cbn [result_bind]. unfold vector at 1.
    rewrite (flip_vector {| shape := _; data := _ |} _ eq_refl).
    cbn [result_bind].
    rewrite (fftconvolve_full {| shape := _; data := _ |} coef _ eq_refl).
    + cbn [result_bind data]. unfold vector at 1.
      rewrite (flip_vector {| shape := _; data := _ |} _ eq_refl).
      eexists. split; [reflexivity|]. cbn [shape data].
      rewrite !length_rev, length_conv_full, length_rev, Hlen, H1.
      split; [f_equal|]; lia.
    + cbn [data]. intros Hnil. apply (f_equal (@length Q)) in Hnil.
      rewrite length_rev, H1 in Hnil. cbn in Hnil. lia.
    + done.
  - eexists. split; [reflexivity|]. unfold vector. cbn [shape data].
    by rewrite H1.
Qed.

End Full.

(** ** Whitening and unwhitening *)

Lemma np_imul_window (A B : ndarray) a b n :
  shape A = [a; b; n] -> shape B = [1%nat; 1%nat; n] ->
  exists R, np_imul A B = Ok R /\ shape R = [a; b; n].
Proof.
  intros HA HB. unfold np_imul, np_mul, broadcast_op. rewrite HA, HB.
  assert (Hb : broadcast_rev (rev [a; b; n]) (rev [1%nat; 1%nat; n])
               = Some (rev [a; b; n])).
  { cbn. rewrite Nat.eqb_refl.
    destruct (a =? 1)%nat eqn:Ha, (b =? 1)%nat eqn:Hb;
      rewrite ?Nat.eqb_refl; try done;
      apply Nat.eqb_eq in Ha || apply Nat.eqb_eq in Hb; by subst. }
  rewrite Hb. unfold mbind, res_mbind. cbn [res_bind shape].
  rewrite rev_involutive. rewrite decide_True by done. by eexists.
Qed.

Section Trials.
Context `{Arma_api}.

(** The array of the filtered channels of the trials of [X]. *)
Lemma filtered_trials (ar_model : arma) (X : ndarray) zero_phase reverse_ar
    a b n p :
  shape (AR_ ar_model) = [p] ->
  shape X = [a; b; n] ->
  wf_array X ->
  exists Y,
    (rows ← for_each
              (fun Xi =>
                 Xi_white ← for_each
                              (fun Xij => apply_ar ar_model Xij zero_phase
                                            "same" reverse_ar)
                              (rows_of Xi);
                 np_array Xi_white)
              (rows_of X);
     np_array rows) = Return Y
    /\ wf_array Y
    /\ shape Y = match a, b with
                 | O, _ => [0%nat]
                 | _, O => [a; 0%nat]
                 | _, _ => [a; b; n]
                 end.
Proof.
  intros HAR HX Hwf.
  unfold wf_array in Hwf. rewrite HX in Hwf.
  unfold size_of in Hwf. cbn [fold_right] in Hwf.
  destruct (rows_of_spec X a [b; n] HX) as [Ha Hrs].
  { unfold size_of. cbn [fold_right]. lia. }
  destruct (apply_whitening_rows ar_model zero_phase reverse_ar p
              (rows_of X) b n HAR Hrs) as (rows & Hrows & Hlen & HP).
  rewrite Hrows. unfold mbind, result_mbind. cbn [result_bind].
  rewrite Ha in Hlen.
  destruct a as [|a'].
  - destruct rows; [|done]. by eexists.
  - rewrite (np_array_shape rows (match b with O => [0%nat] | _ => [b; n] end)).
    + eexists. split; [reflexivity|]. unfold wf_array. cbn [shape data].
      rewrite Hlen.
      rewrite (length_flat_map_data rows (b * n)), Hlen.
      * split; [|by destruct b].
        destruct b; unfold size_of; cbn [fold_right]; lia.
      * eapply Forall_impl; [exact HP|]. by intros ? [? ?].
    + by destruct rows.
    + eapply Forall_impl; [exact HP|]. by intros ? [? ?].
Qed.

(** X18.  Without re-estimation and without plots, the unwhitening of
    trials of channels, at least one of each, returns an array of the
    shape of the trials and leaves the model as it is; a two-dimensional
    array is taken as one trial and comes back with its leading axis. *)
Theorem unwhitening_shape (ar_model : arma) (X_white : ndarray) zero_phase
    a b n p :
  shape (AR_ ar_model) = [p] ->
  wf_array X_white ->
  shape X_white = [a; b; n] \/ shape X_white = [b; n] /\ a = 1%nat ->
  (0 < a)%nat -> (0 < b)%nat ->
  exists Y,
    unwhitening ar_model X_white false zero_phase false
    = Return (ar_model, Y)
    /\ shape Y = [a; b; n]
    /\ wf_array Y.
Proof.
  intros HAR Hwf Hshape Ha Hb. unfold unwhitening.
  set (X3 := match shape X_white with [_; _] => _ | _ => X_white end).
  assert (HX3 : shape X3 = [a; b; n] /\ wf_array X3).
  { unfold X3. destruct Hshape as [HX|[HX ->]]; rewrite HX; [done|].
    split; [done|]. unfold wf_array in *. cbn [shape data].
    rewrite Hwf, HX. unfold size_of. cbn [fold_right]. lia. }
  destruct HX3 as [HX3 Hwf3].
  unfold unpack3. rewrite HX3.
  unfold mbind at 1, result_mbind at 1. cbn [result_bind].
  unfold mbind at 1, result_mbind at 1. cbn [result_bind].
  destruct (filtered_trials ar_model X3 zero_phase false a b n p HAR HX3 Hwf3)
    as (Y & HY & HwfY & HsY).
  unfold mbind, result_mbind in HY |- *.
  destruct (for_each _ (rows_of X3)) as [rows|e]; [|done].
  cbn [result_bind] in HY |- *. rewrite HY. cbn [result_bind].
  destruct a as [|a']; [lia|]. destruct b as [|b']; [lia|].
  rewrite HsY, bool_decide_eq_true_2 by done. cbn [negb].
  by exists Y.
Qed.

(** X19.  Given trials without any trial, or without any channel, the
    unwhitening fails on its assertion about the shapes. *)
Theorem unwhitening_empty (ar_model : arma) (X_white : ndarray) zero_phase
    a b n p :
  shape (AR_ ar_model) = [p] ->
  wf_array X_white ->
  shape X_white = [a; b; n] ->
  a = 0%nat \/ b = 0%nat ->
  unwhitening ar_model X_white false zero_phase false
  = Throw (AssertionError "").
Proof.
  intros HAR Hwf HX Hempty. unfold unwhitening. rewrite HX.
  unfold unpack3. rewrite HX.
  unfold mbind at 1, result_mbind at 1. cbn [result_bind].
  unfold mbind at 1, result_mbind at 1. cbn [result_bind].
  destruct (filtered_trials ar_model X_white zero_phase false a b n p HAR HX
              Hwf) as (Y & HY & HwfY & HsY).
  unfold mbind, result_mbind in HY |- *.
  destruct (for_each _ (rows_of X_white)) as [rows|e]; [|done].
  cbn [result_bind] in HY |- *. rewrite HY. cbn [result_bind].
  rewrite HsY.
  destruct a as [|a'].
  - by rewrite bool_decide_eq_false_2.
  - destruct Hempty as [? | ->]; [done|]. by rewrite bool_decide_eq_false_2.
Qed.

(** X20.  Without plots, once the model is estimated and the window is
    as long as the trials, the whitening of trials of channels, at least
    one of each and with at least one sample, returns the estimated model
    and an array of the shape of the trials: its assertion on the shapes
    holds and the window broadcasts. *)
Theorem whitening_shape (X : ndarray) ordar block_length sfreq
    (zero_phase : bool) a b n m0 m1 m1' m2 window p :
  shape X = [a; b; n] ->
  wf_array X ->
  (0 < a)%nat -> (0 < b)%nat -> (0 < n)%nat ->
  Arma ordar 0 sfreq block_length = Return m0 ->
  (forall flat, reshape_rows X n = Return flat ->
                periodogram m0 flat false true = Return m1) ->
  (if zero_phase then update_last_psd np_sqrt m1 else Return m1)
  = Return m1' ->
  estimate m1' = Return m2 ->
  shape (AR_ m2) = [p] ->
  tukey n (3 / inject_Z (Z.of_nat n)) = Return window ->
  shape window = [n] ->
  exists Y,
    whitening X ordar block_length sfreq zero_phase false = Return (m2, Y)
    /\ shape Y = shape X.
Proof.
  intros HX Hwf Ha Hb Hn HArma Hperiodogram Hsqrt Hestimate HAR Htukey Hwin.
  unfold whitening, unpack3. rewrite HX.
  unfold mbind at 1, result_mbind at 1. cbn [result_bind].
  rewrite HArma.
  unfold mbind at 1, result_mbind at 1. cbn [result_bind].
  assert (Hflat : exists flat, reshape_rows X n = Return flat).
  { unfold reshape_rows. rewrite HX. unfold size_of. cbn [fold_right].
    assert (Hmod : ((a * (b * (n * 1))) mod n = 0)%nat).
    { replace (a * (b * (n * 1)))%nat with ((a * b) * n)%nat by lia.
      apply Nat.Div0.mod_mul. }
    rewrite Hmod. destruct n; [lia|]. by eexists. }
  destruct Hflat as (flat & Hflat). rewrite Hflat.
  unfold mbind at 1, result_mbind at 1. cbn [result_bind].
  rewrite (Hperiodogram flat Hflat).
  unfold mbind at 1, result_mbind at 1. cbn [result_bind].
  rewrite Hsqrt.
  unfold mbind at 1, result_mbind at 1. cbn [result_bind].
  rewrite Hestimate.
  unfold mbind at 1, result_mbind at 1. cbn [result_bind].
  destruct (filtered_trials m2 X zero_phase false a b n p HAR HX Hwf)
    as (Y & HY & HwfY & HsY).
  unfold apply_whitening. rewrite HX, HY.
  unfold mbind at 1, result_mbind at 1. cbn [result_bind].
  destruct a as [|a']; [lia|]. destruct b as [|b']; [lia|].
  rewrite HsY, bool_decide_eq_true_2 by done. cbn [negb last].
  unfold mbind at 1, result_mbind at 1. cbn [result_bind].
  destruct n as [|n']; [lia|]. cbn [Nat.eqb].
  unfold mbind at 1, result_mbind at 1. cbn [result_bind].
  rewrite Htukey.
  unfold mbind at 1, result_mbind at 1. cbn [result_bind].
  unfold expand_front. rewrite Hwin.
  unfold mbind at 1, result_mbind at 1. cbn [result_bind].
  destruct (np_imul_window Y {| shape := [1%nat; 1%nat; S n'];
                                 data := data window |} (S a') (S b') (S n')
              HsY eq_refl) as (R & HR & HsR).
  rewrite HR. cbn [of_res].
  unfold mbind, result_mbind. cbn [result_bind].
  by exists R.
Qed.

End Trials.

(** ** The theorems on a model of order 1 *)

Lemma apply_ar_same_length_witness :
  exists y,
    @apply_ar arma_model ar_half (vector [1; 2; 4]) true "same" true
    = Return y
    /\ shape y = [3%nat]
    /\ length (data y) = 3%nat.
Proof.
  apply (@apply_ar_same_length arma_model ar_half (vector [1; 2; 4]) true
           true 3 1); reflexivity.
Defined.

Lemma apply_whitening_trials_witness :
  exists Y,
    @apply_whitening arma_model ar_half trials true "same" false None
    = Return Y
    /\ wf_array Y
    /\ shape Y = [2; 1; 3]%nat.
Proof.
  apply (@apply_whitening_trials arma_model ar_half trials true false None
           2 1 3 1); reflexivity.
Defined.

Lemma apply_whitening_rank1_witness :
  exists Y,
    @apply_whitening arma_model ar_half atoms true "same" false (Some 1%Z)
    = Return Y
    /\ @apply_whitening arma_model ar_half atoms true "same" true (Some 1%Z)
       = Return Y
    /\ shape Y = [2; 4]%nat
    /\ wf_array Y
    /\ forall i, (i < 2)%nat ->
         take (cut 4 1) (take 4 (drop (i * 4) (data Y)))
         = take (cut 4 1) (take 4 (drop (i * 4) (data atoms))).
Proof.
  apply (@apply_whitening_rank1 arma_model ar_half atoms true false 1%Z
           2 4 1); reflexivity.
Defined.

Lemma apply_ar_linear_witness :
  exists y'',
    @apply_ar arma_model ar_half (vector [2; 5; 8]) true "same" false
    = Return y''
    /\ shape y'' = [3%nat]
    /\ entries_lin 2 [1 # 4; 0 # 8; 6 # 2] [-2 # 4; 10 # 8; -1 # 2]
         (data y'').
Proof.
  apply (@apply_ar_linear arma_model ar_half 2 (vector [1; 2; 4])
           (vector [0; 1; 0]) (vector [2; 5; 8]) true "same" false
           {| shape := [3%nat]; data := [1 # 4; 0 # 8; 6 # 2] |}
           {| shape := [3%nat]; data := [-2 # 4; 10 # 8; -1 # 2] |});
    try reflexivity.
  split; [reflexivity|]. split; [reflexivity|].
  intros [|[|[|i]]]; try (vm_compute; reflexivity).
  destruct i; vm_compute; reflexivity.
Defined.

Lemma apply_ar_full_length_witness :
  exists y,
    @apply_ar arma_model ar_half (vector [1; 2; 4]) true "full" false
    = Return y
    /\ shape y = [5%nat]
    /\ length (data y) = 5%nat.
Proof.
  apply (@apply_ar_full_length arma_model ar_half (vector [1; 2; 4]) true
           false 3 1); [reflexivity|reflexivity|reflexivity|reflexivity|lia].
Defined.

Lemma apply_ar_order_zero_witness :
  exists y,
    @apply_ar arma_model {| coefficients := []; spectra := [] |}
      (vector [1; 2; 4]) true "valid" false = Return y
    /\ shape y = [3%nat]
    /\ entries_eq (data y) [1; 2; 4].
Proof.
  apply (@apply_ar_order_zero arma_model
           {| coefficients := []; spectra := [] |} (vector [1; 2; 4]) true
           "valid" false 3); try reflexivity.
  right; right; reflexivity.
Defined.

Lemma unwhitening_shape_witness :
  exists Y,
    @unwhitening arma_model ar_half trials false true false
    = Return (ar_half, Y)
    /\ shape Y = [2; 1; 3]%nat
    /\ wf_array Y.
Proof.
  apply (@unwhitening_shape arma_model ar_half trials true 2 1 3 1);
    [reflexivity|reflexivity|left; reflexivity|lia|lia].
Defined.

Lemma unwhitening_empty_witness :
  @unwhitening arma_model ar_half {| shape := [0; 1; 3]%nat; data := [] |}
    false true false
  = Throw (AssertionError "").
Proof.
  apply (@unwhitening_empty arma_model ar_half
           {| shape := [0; 1; 3]%nat; data := [] |} true 0 1 3 1);
    [reflexivity|reflexivity|reflexivity|left; reflexivity].
Defined.

Lemma whitening_shape_witness :
  exists Y,
    @whitening arma_model trials 1 256 1 true false
    = Return ({| coefficients := [1 # 2];
                 spectra := [{| shape := [2; 3]%nat;
                                data := [1; 2; 4; 0; 1; 0] |}] |}, Y)
    /\ shape Y = [2; 1; 3]%nat.
Proof.
  apply (@whitening_shape arma_model trials 1 256 1 true 2 1 3
           {| coefficients := [1 # 2]; spectra := [] |}
           {| coefficients := [1 # 2];
              spectra := [{| shape := [2; 3]%nat;
                             data := [1; 2; 4; 0; 1; 0] |}] |}
           {| coefficients := [1 # 2];
              spectra := [{| shape := [2; 3]%nat;
                             data := [1; 2; 4; 0; 1; 0] |}] |}
           {| coefficients := [1 # 2];
              spectra := [{| shape := [2; 3]%nat;
                             data := [1; 2; 4; 0; 1; 0] |}] |}
           (vector [0; 1; 0]) 1);
    try reflexivity; try lia.
  intros flat Hflat. vm_compute in Hflat. injection Hflat as <-. reflexivity.
Defined.

End WhiteningFacts.
